(** * Two-phase frictional pressure drop correlations (fluids/two_phase.py)

    A shallow embedding of the eleven correlations of [fluids.two_phase] and
    the properties stated about them.

    Numbers.  The program computes with binary64 floats; here every float is
    read as the real number it stands for, so rounding, overflow and NaN are
    outside the model.  What is kept of Python's arithmetic is its partiality:
    [/] raises [ZeroDivisionError] on a zero divisor, [**] with a float
    exponent raises on [0 ** negative] and on a negative base with a
    non-integer exponent, and [math.log] raises on a non-positive argument.
    Every correlation therefore returns an [outcome R]: a value or the
    exception raised.

    Collaborators.  [friction_factor], [Reynolds], [Froude], [Weber], [Bond],
    [Confinement], [homogeneous] and [Lockhart_Martinelli_Xtt] are imported by
    the module from other files; they are taken as an interface
    ([Providers]), and what a theorem needs of them is a hypothesis of that
    theorem. *)

From Stdlib Require Import Reals Lra Psatz Bool.

Set Implicit Arguments.
Open Scope R_scope.

(* ------------------------------------------------------------------ *)
(** ** Outcomes: a value or a Python exception *)

Inductive pyerror : Set :=
| ZeroDivisionError
| ValueError
| TypeError
| UpstreamError.

Inductive outcome (A : Type) : Type :=
| Val (a : A)
| Raise (e : pyerror).

Arguments Val {A} a.
Arguments Raise {A} e.

Definition andThen {A B : Type} (c : outcome A) (k : A -> outcome B) : outcome B :=
  match c with
  | Val a => k a
  | Raise e => Raise e
  end.

Notation "'let!' x ':=' c 'in' k" := (andThen c (fun x => k))
  (at level 10, x name, c at level 100, k at level 200).

Notation "'let!' ' p ':=' c 'in' k" := (andThen c (fun p => k))
  (at level 10, p strict pattern, c at level 100, k at level 200).

(** [scale k c] multiplies the value of [c] by [k] and keeps an exception. *)
Definition scale (k : R) (c : outcome R) : outcome R :=
  let! v := c in Val (k * v).

(** [holds Q c]: [c] returns a value, and the value satisfies [Q]. *)
Definition holds {A : Type} (Q : A -> Prop) (c : outcome A) : Prop :=
  match c with
  | Val a => Q a
  | Raise _ => False
  end.

(** [drop_le a b]: both drops are returned, and the first is at most the
    second. *)
Definition drop_le (a b : outcome R) : Prop :=
  match a, b with
  | Val u, Val v => u <= v
  | _, _ => False
  end.

(* ------------------------------------------------------------------ *)
(** ** Python's partial arithmetic on floats, over the reals *)

(** [a / b] under [from __future__ import division]. *)
Definition fdiv (a b : R) : outcome R :=
  if Req_dec_T b 0 then Raise ZeroDivisionError else Val (a / b).

(** Whether a float holds an integral value. *)
Definition is_integer (y : R) : bool :=
  if Req_dec_T y (IZR (Int_part y)) then true else false.

(** [a ** b] with a float exponent [b] (float_pow): [x ** 0.0] is [1.0] for
    every [x]; a positive base gives [exp (b * ln a)]; [0.0 ** b] is [0.0]
    for [b > 0] and raises [ZeroDivisionError] for [b < 0]; a negative base
    is accepted only with an integral exponent.  With a fractional exponent
    Python 2 raises [ValueError] ("negative number cannot be raised to a
    fractional power") and Python 3 leaves the floats for a complex number;
    the module, written for both, handles neither, and the specification
    (section 7) counts the case as an error: it is [Raise ValueError] here. *)
Definition fpow (a b : R) : outcome R :=
  if Req_dec_T b 0 then Val 1
  else if Rlt_dec 0 a then Val (Rpower a b)
  else if Req_dec_T a 0 then
    (if Rlt_dec 0 b then Val 0 else Raise ZeroDivisionError)
  else if is_integer b then Val (powerRZ a (Int_part b))
  else Raise ValueError.

(** [math.log]. *)
Definition flog (a : R) : outcome R :=
  if Rlt_dec 0 a then Val (ln a) else Raise ValueError.

Infix "//" := fdiv (at level 40, left associativity).
Infix "**" := fpow (at level 30, right associativity).

(* ------------------------------------------------------------------ *)
(** ** The imported collaborators *)

Class Providers : Type := {
  (** [friction_factor(Re, eD)] *)
  friction_factor : R -> R -> outcome R;
  (** [Reynolds(V, rho, mu, D)] *)
  Reynolds : R -> R -> R -> R -> outcome R;
  (** [Froude(V, L, squared)] *)
  Froude : R -> R -> bool -> outcome R;
  (** [Weber(V, L, rho, sigma)] *)
  Weber : R -> R -> R -> R -> outcome R;
  (** [Bond(rhol, rhog, sigma, L)] *)
  Bond : R -> R -> R -> R -> outcome R;
  (** [Confinement(D, rhol, rhog, sigma)] *)
  Confinement : R -> R -> R -> R -> outcome R;
  (** [homogeneous(x, rhol, rhog)] *)
  homogeneous : R -> R -> R -> outcome R;
  (** [Lockhart_Martinelli_Xtt(x, rhol, rhog, mul, mug)] *)
  Lockhart_Martinelli_Xtt : R -> R -> R -> R -> R -> outcome R
}.

Section Correlations.

Context {P : Providers}.

(* ------------------------------------------------------------------ *)
(** ** The single-phase block

    Each correlation opens with the same statements, once per phase:
<<
    v  = flow/rho/(pi/4*D**2)
    Re = Reynolds(V=v, rho=rho, mu=mu, D=D)
    fd = friction_factor(Re=Re, eD=roughness/D)
    dP = fd*L/D*(0.5*rho*v**2)
>>
    with [flow] the mass flow [m] (liquid-only, gas-only), or [m*(1-x)] and
    [m*x] (the actual flows of Theissing and Chen_Friedel).  [phase_velocity]
    is the first line, [phase_friction] the first three, [phase_dP] the
    fourth, [single_phase_drop] the four of them. *)

Definition phase_velocity (flow rho D : R) : outcome R :=
  let! q := flow // rho in
  q // (PI / 4 * D ^ 2).

Definition phase_friction (flow rho mu D roughness : R) : outcome (R * R * R) :=
  let! v := phase_velocity flow rho D in
  let! Re := Reynolds v rho mu D in
  let! eD := roughness // D in
  let! fd := friction_factor Re eD in
  Val (v, Re, fd).

Definition phase_dP (fd L D rho v : R) : outcome R :=
  let! a := (fd * L) // D in
  Val (a * (0.5 * rho * v ^ 2)).

Definition single_phase_drop (flow rho mu D roughness L : R) : outcome R :=
  let! '(v, _, fd) := phase_friction flow rho mu D roughness in
  phase_dP fd L D rho v.

(** The homogeneous density as Friedel and Lombardi_Pedrocchi obtain it,
    through the void-fraction provider. *)
Definition rho_homogeneous (x rhol rhog : R) : outcome R :=
  let! voidage_h := homogeneous x rhol rhog in
  Val (rhol * (1 - voidage_h) + rhog * voidage_h).

(* ------------------------------------------------------------------ *)
(** ** Friedel (lines 122-147) *)

(** [H = (rhol/rhog)**0.91*(mug/mul)**0.19*(1 - mug/mul)**0.7] *)
Definition Friedel_H (rhol rhog mul mug : R) : outcome R :=
  let! r := rhol // rhog in
  let! h1 := r ** 0.91 in
  let! s := mug // mul in
  let! h2 := s ** 0.19 in
  let! s' := mug // mul in
  let! h3 := (1 - s') ** 0.7 in
  Val (h1 * h2 * h3).

(** [F = x**0.78*(1-x)**0.224] *)
Definition Friedel_F (x : R) : outcome R :=
  let! f1 := x ** 0.78 in
  let! f2 := (1 - x) ** 0.224 in
  Val (f1 * f2).

(** [E = (1-x)**2 + x**2*(rhol*fd_go/(rhog*fd_lo))] *)
Definition Friedel_E (x rhol rhog fd_lo fd_go : R) : outcome R :=
  let! q := (rhol * fd_go) // (rhog * fd_lo) in
  Val ((1 - x) ^ 2 + x ^ 2 * q).

(** [phi_lo2 = E + 3.24*F*H/(Fr**0.0454*We**0.035)] *)
Definition Friedel_phi (E F H Fr We : R) : outcome R :=
  let! a := Fr ** 0.0454 in
  let! b := We ** 0.035 in
  let! t := (3.24 * F * H) // (a * b) in
  Val (E + t).

Definition Friedel (m x rhol rhog mul mug sigma D roughness L : R) : outcome R :=
  let! '(v_lo, Re_lo, fd_lo) := phase_friction m rhol mul D roughness in
  let! dP_lo := phase_dP fd_lo L D rhol v_lo in
  let! '(v_go, Re_go, fd_go) := phase_friction m rhog mug D roughness in
  let! F := Friedel_F x in
  let! H := Friedel_H rhol rhog mul mug in
  let! E := Friedel_E x rhol rhog fd_lo fd_go in
  let! rho_h := rho_homogeneous x rhol rhog in
  let! Q_h := m // rho_h in
  let! v_h := Q_h // (PI / 4 * D ^ 2) in
  let! Fr := Froude v_h D true in
  let! We := Weber v_h D rho_h sigma in
  let! phi_lo2 := Friedel_phi E F H Fr We in
  Val (phi_lo2 * dP_lo).

(* ------------------------------------------------------------------ *)
(** ** Gronnerud (lines 220-235) *)

Definition Gronnerud_f_Fr (Frl : R) : outcome R :=
  if Rle_dec 1 Frl then Val 1
  else
    let! a := Frl ** 0.3 in
    let! i := 1 // Frl in
    let! l := flog i in
    Val (a + 0.0055 * l ^ 2).

Definition Gronnerud (m x rhol rhog mul mug D roughness L : R) : outcome R :=
  let! G := m // (PI / 4 * D ^ 2) in
  let! V := G // rhol in
  let! Frl := Froude V D true in
  let! f_Fr := Gronnerud_f_Fr Frl in
  let! x18 := x ** 1.8 in
  let! sf := f_Fr ** 0.5 in
  let dP_dL_Fr := f_Fr * (x + 4 * (x18 - x ^ 10 * sf)) in
  let! rr := rhol // rhog in
  let! mr := mul // mug in
  let! mr4 := mr ** 0.25 in
  let! q := rr // mr4 in
  let phi_gd := 1 + dP_dL_Fr * (q - 1) in
  let! '(v_lo, Re_lo, fd_lo) := phase_friction m rhol mul D roughness in
  let! dP_lo := phase_dP fd_lo L D rhol v_lo in
  Val (phi_gd * dP_lo).

(* ------------------------------------------------------------------ *)
(** ** Chisholm (lines 340-376) and Baroczy_Chisholm (lines 457-479) *)

(** The table of lines 355-368. *)
Definition Chisholm_B (Gamma G_tp : R) : outcome R :=
  if Rle_dec Gamma 9.5 then
    if Rle_dec G_tp 500 then Val 4.8
    else if Rlt_dec G_tp 1900 then 2400 // G_tp
    else let! g := G_tp ** (-0.5) in Val (55 * g)
  else if Rle_dec Gamma 28 then
    if Rle_dec G_tp 600 then
      let! g := G_tp ** (-0.5) in (520 * g) // Gamma
    else 21 // Gamma
  else
    let! g := G_tp ** (-0.5) in (15000 * g) // Gamma ^ 2.

(** Lines 370-373: the exponent [n] and the rescaled [B]. *)
Definition Chisholm_rough (B fd_lo fd_go Re_lo Re_go mul mug roughness D : R)
  : outcome (R * R) :=
  let! a := fd_lo // fd_go in
  let! la := flog a in
  let! b := Re_go // Re_lo in
  let! lb := flog b in
  let! n := la // lb in
  let! s := mug // mul in
  let! e := (-600 * roughness) // D in
  let! t := 10 ** e in
  let! ex := (0.25 - n) // 0.25 in
  let! B_ratio := (0.5 * (1 + s ^ 2 + t)) ** ex in
  Val (n, B * B_ratio).

(** [phi2_ch = 1 + (Gamma**2-1)*(B*x**((2-n)/2.)*(1-x)**((2-n)/2.) + x**(2-n))] *)
Definition Chisholm_phi2 (Gamma B n x : R) : outcome R :=
  let! a := x ** ((2 - n) / 2) in
  let! b := (1 - x) ** ((2 - n) / 2) in
  let! c := x ** (2 - n) in
  Val (1 + (Gamma ^ 2 - 1) * (B * a * b + c)).

Definition Chisholm (m x rhol rhog mul mug D roughness L : R)
    (rough_correction : bool) : outcome R :=
  let! G_tp := m // (PI / 4 * D ^ 2) in
  let n := 0.25 in
  let! '(v_lo, Re_lo, fd_lo) := phase_friction m rhol mul D roughness in
  let! dP_lo := phase_dP fd_lo L D rhol v_lo in
  let! '(v_go, Re_go, fd_go) := phase_friction m rhog mug D roughness in
  let! dP_go := phase_dP fd_go L D rhog v_go in
  let! r := dP_go // dP_lo in
  let! Gamma := r ** 0.5 in
  let! B := Chisholm_B Gamma G_tp in
  let! '(n, B) :=
     (if rough_correction
      then Chisholm_rough B fd_lo fd_go Re_lo Re_go mul mug roughness D
      else Val (n, B)) in
  let! phi2_ch := Chisholm_phi2 Gamma B n x in
  Val (phi2_ch * dP_lo).

(** The table of lines 472-477. *)
Definition Baroczy_B (Gamma G_tp : R) : outcome R :=
  if Rle_dec Gamma 9.5 then
    let! g := G_tp ** (-0.5) in Val (55 * g)
  else if Rle_dec Gamma 28 then
    let! g := G_tp ** (-0.5) in (520 * g) // Gamma
  else
    let! g := G_tp ** (-0.5) in (15000 * g) // Gamma ^ 2.

Definition Baroczy_Chisholm (m x rhol rhog mul mug D roughness L : R) : outcome R :=
  let! G_tp := m // (PI / 4 * D ^ 2) in
  let n := 0.25 in
  let! '(v_lo, Re_lo, fd_lo) := phase_friction m rhol mul D roughness in
  let! dP_lo := phase_dP fd_lo L D rhol v_lo in
  let! '(v_go, Re_go, fd_go) := phase_friction m rhog mug D roughness in
  let! dP_go := phase_dP fd_go L D rhog v_go in
  let! r := dP_go // dP_lo in
  let! Gamma := r ** 0.5 in
  let! B := Baroczy_B Gamma G_tp in
  let! phi2_ch := Chisholm_phi2 Gamma B n x in
  Val (phi2_ch * dP_lo).

(* ------------------------------------------------------------------ *)
(** ** Muller_Steinhagen_Heck (lines 541-554) *)

Definition Muller_Steinhagen_Heck (m x rhol rhog mul mug D roughness L : R)
  : outcome R :=
  let! '(v_lo, Re_lo, fd_lo) := phase_friction m rhol mul D roughness in
  let! dP_lo := phase_dP fd_lo L D rhol v_lo in
  let! '(v_go, Re_go, fd_go) := phase_friction m rhog mug D roughness in
  let! dP_go := phase_dP fd_go L D rhog v_go in
  let G_MSH := dP_lo + 2 * (dP_go - dP_lo) * x in
  let! c := (1 - x) ** (1 / 3) in
  Val (G_MSH * c + dP_go * x ^ 3).

(* ------------------------------------------------------------------ *)
(** ** Lombardi_Pedrocchi (lines 609-612) *)

Definition Lombardi_Pedrocchi (m x rhol rhog sigma D L : R) : outcome R :=
  let! rho_h := rho_homogeneous x rhol rhog in
  let! G_tp := m // (PI / 4 * D ^ 2) in
  let! g := G_tp ** 1.4 in
  let! s := sigma ** 0.4 in
  let! d := D ** 1.2 in
  let! r := rho_h ** 0.866 in
  (0.83 * g * s * L) // (d * r).

(* ------------------------------------------------------------------ *)
(** ** Theissing (lines 690-727) *)

(** Lines 721-726, from the four single-phase drops. *)
Definition Theissing_model (x rhol rhog dP_lo dP_go dP_l dP_g : R) : outcome R :=
  let! a1 := dP_l // dP_lo in
  let! l1 := flog a1 in
  let! d1 := flog (1 - x) in
  let! n1 := l1 // d1 in
  let! a2 := dP_g // dP_go in
  let! l2 := flog a2 in
  let! d2 := flog x in
  let! n2 := l2 // d2 in
  let! w := dP_g // dP_l in
  let! w1 := w ** 0.1 in
  let! w' := dP_g // dP_l in
  let! w2 := w' ** 0.1 in
  let! n := (n1 + n2 * w1) // (1 + w2) in
  let! rr := rhol // rhog in
  let! sr := rr ** 0.5 in
  let! rr' := rhol // rhog in
  let! base := (2 * sr) // (1 + rr') in
  let! ex := 0.7 // n in
  let! pw := base ** ex in
  let epsilon := 3 - 2 * pw in
  let! e1 := 1 // (n * epsilon) in
  let! t1 := dP_lo ** e1 in
  let! e2 := 1 // epsilon in
  let! t2 := (1 - x) ** e2 in
  let! e3 := 1 // (n * epsilon) in
  let! t3 := dP_go ** e3 in
  let! e4 := 1 // epsilon in
  let! t4 := x ** e4 in
  (t1 * t2 + t3 * t4) ** (n * epsilon).

Definition Theissing (m x rhol rhog mul mug D roughness L : R) : outcome R :=
  let! '(v_lo, Re_lo, fd_lo) := phase_friction m rhol mul D roughness in
  let! dP_lo := phase_dP fd_lo L D rhol v_lo in
  let! '(v_go, Re_go, fd_go) := phase_friction m rhog mug D roughness in
  let! dP_go := phase_dP fd_go L D rhog v_go in
  if Req_dec_T x 0 then Val dP_lo
  else if Req_dec_T x 1 then Val dP_go
  else
    let! '(v_l, Re_l, fd_l) := phase_friction (m * (1 - x)) rhol mul D roughness in
    let! dP_l := phase_dP fd_l L D rhol v_l in
    let! '(v_g, Re_g, fd_g) := phase_friction (m * x) rhog mug D roughness in
    let! dP_g := phase_dP fd_g L D rhog v_g in
    Theissing_model x rhol rhog dP_lo dP_go dP_l dP_g.

(* ------------------------------------------------------------------ *)
(** ** Jung_Radermacher (lines 792-799) *)

Definition Jung_Radermacher (m x rhol rhog mul mug D roughness L : R) : outcome R :=
  let! '(v_lo, Re_lo, fd_lo) := phase_friction m rhol mul D roughness in
  let! dP_lo := phase_dP fd_lo L D rhol v_lo in
  let! Xtt := Lockhart_Martinelli_Xtt x rhol rhog mul mug in
  let! a := Xtt ** (-1.47) in
  let! b := (1 - x) ** 1.8 in
  let phi_tp2 := 12.82 * a * b in
  Val (phi_tp2 * dP_lo).

(* ------------------------------------------------------------------ *)
(** ** Tran (lines 871-886) *)

Definition Tran (m x rhol rhog mul mug sigma D roughness L : R) : outcome R :=
  let! '(v_lo, Re_lo, fd_lo) := phase_friction m rhol mul D roughness in
  let! dP_lo := phase_dP fd_lo L D rhol v_lo in
  let! '(v_go, Re_go, fd_go) := phase_friction m rhog mug D roughness in
  let! dP_go := phase_dP fd_go L D rhog v_go in
  let! Gamma2 := dP_go // dP_lo in
  let! Co := Confinement D rhol rhog sigma in
  let! a := x ** 0.875 in
  let! b := (1 - x) ** 0.875 in
  let! c := x ** 1.75 in
  let phi_lo2 := 1 + (4.3 * Gamma2 - 1) * (Co * a * b + c) in
  Val (dP_lo * phi_lo2).

(* ------------------------------------------------------------------ *)
(** ** Chen_Friedel (lines 971-1009) *)

(** Lines 1002-1008, with the coefficient of [exp(-Bo)] as a parameter:
    the code has [0.5], the docstring [0.4]. *)
Definition Chen_Omega_with (c : R) (m x rhog mug D Re_lo We Bo : R) : outcome R :=
  if Rlt_dec Bo 2.5 then
    let! v_g := phase_velocity (m * x) rhog D in
    let! Re_g := Reynolds v_g rhog mug D in
    let! a := Re_lo ** 0.45 in
    let! b := Re_g ** 0.09 in
    (0.0333 * a) // (b * (1 + c * exp (- Bo)))
  else
    let! w := We ** 0.2 in
    w // (2.5 + 0.06 * Bo).

(** The factor as the code computes it (line 1006). *)
Definition Chen_Omega := Chen_Omega_with 0.5.

(** The factor as the docstring states it (line 899). *)
Definition Chen_Omega_documented := Chen_Omega_with 0.4.

(** [rho_h = 1./(x/rhog + (1-x)/rhol)] (line 987). *)
Definition rho_h_direct (x rhol rhog : R) : outcome R :=
  let! a := x // rhog in
  let! b := (1 - x) // rhol in
  1 // (a + b).

Definition Chen_Friedel (m x rhol rhog mul mug sigma D roughness L : R) : outcome R :=
  let! '(v_lo, Re_lo, fd_lo) := phase_friction m rhol mul D roughness in
  let! dP_lo := phase_dP fd_lo L D rhol v_lo in
  let! '(v_go, Re_go, fd_go) := phase_friction m rhog mug D roughness in
  let! F := Friedel_F x in
  let! H := Friedel_H rhol rhog mul mug in
  let! E := Friedel_E x rhol rhog fd_lo fd_go in
  let! rho_h := rho_h_direct x rhol rhog in
  let! Q_h := m // rho_h in
  let! v_h := Q_h // (PI / 4 * D ^ 2) in
  let! Fr := Froude v_h D true in
  let! We := Weber v_h D rho_h sigma in
  let! phi_lo2 := Friedel_phi E F H Fr We in
  let dP := phi_lo2 * dP_lo in
  let! Bo4 := Bond rhol rhog sigma D in
  let! Bo := Bo4 // 4 in
  let! Omega := Chen_Omega m x rhog mug D Re_lo We Bo in
  Val (dP * Omega).

(* ------------------------------------------------------------------ *)
(** ** Zhang_Webb (lines 1074-1081) *)

Definition Zhang_Webb (m x rhol mul Pres Pc D roughness L : R) : outcome R :=
  let! '(v_lo, Re_lo, fd_lo) := phase_friction m rhol mul D roughness in
  let! dP_lo := phase_dP fd_lo L D rhol v_lo in
  let! Pr := Pres // Pc in
  let! t2 := (2.87 * x ^ 2) // Pr in
  let! a := x ** 0.8 in
  let! b := (1 - x) ** 0.25 in
  let! c := Pr ** (-1.64) in
  let phi_lo2 := (1 - x) ^ 2 + t2 + 1.68 * a * b * c in
  Val (dP_lo * phi_lo2).

End Correlations.

(* ------------------------------------------------------------------ *)
(** ** The call protocol: optional arguments and their defaults

    A [def] header gives each parameter either a default or none.  An
    omitted argument ([None]) takes the default of the header; when the
    header has no default for it the call raises [TypeError] before the body
    runs. *)

Definition bind_argument (default : option R) (actual : option R) : outcome R :=
  match actual, default with
  | Some a, _ => Val a
  | None, Some d => Val d
  | None, None => Raise TypeError
  end.

Section Calls.

Context {P : Providers}.

(** [def Friedel(m, x, rhol, rhog, mul, mug, sigma, D, roughness=0, L=1)] *)
Definition call_Friedel m x rhol rhog mul mug sigma D (roughness L : option R) :=
  let! r := bind_argument (Some 0) roughness in
  let! l := bind_argument (Some 1) L in
  Friedel m x rhol rhog mul mug sigma D r l.

(** [def Gronnerud(m, x, rhol, rhog, mul, mug, D, roughness=0, L=1)] *)
Definition call_Gronnerud m x rhol rhog mul mug D (roughness L : option R) :=
  let! r := bind_argument (Some 0) roughness in
  let! l := bind_argument (Some 1) L in
  Gronnerud m x rhol rhog mul mug D r l.

(** [def Chisholm(m, x, rhol, rhog, mul, mug, D, roughness=0, L=1,
    rough_correction=False)] *)
Definition call_Chisholm m x rhol rhog mul mug D (roughness L : option R)
    (rough_correction : option bool) :=
  let! r := bind_argument (Some 0) roughness in
  let! l := bind_argument (Some 1) L in
  Chisholm m x rhol rhog mul mug D r l
    (match rough_correction with Some b => b | None => false end).

(** [def Baroczy_Chisholm(m, x, rhol, rhog, mul, mug, D, roughness=0, L=1)] *)
Definition call_Baroczy_Chisholm m x rhol rhog mul mug D (roughness L : option R) :=
  let! r := bind_argument (Some 0) roughness in
  let! l := bind_argument (Some 1) L in
  Baroczy_Chisholm m x rhol rhog mul mug D r l.

(** [def Muller_Steinhagen_Heck(m, x, rhol, rhog, mul, mug, D, roughness=0, L=1)] *)
Definition call_Muller_Steinhagen_Heck m x rhol rhog mul mug D
    (roughness L : option R) :=
  let! r := bind_argument (Some 0) roughness in
  let! l := bind_argument (Some 1) L in
  Muller_Steinhagen_Heck m x rhol rhog mul mug D r l.

(** [def Lombardi_Pedrocchi(m, x, rhol, rhog, sigma, D, L=1)] *)
Definition call_Lombardi_Pedrocchi m x rhol rhog sigma D (L : option R) :=
  let! l := bind_argument (Some 1) L in
  Lombardi_Pedrocchi m x rhol rhog sigma D l.

(** [def Theissing(m, x, rhol, rhog, mul, mug, D, roughness=0, L=1)] *)
Definition call_Theissing m x rhol rhog mul mug D (roughness L : option R) :=
  let! r := bind_argument (Some 0) roughness in
  let! l := bind_argument (Some 1) L in
  Theissing m x rhol rhog mul mug D r l.

(** [def Jung_Radermacher(m, x, rhol, rhog, mul, mug, D, roughness=0, L=1)] *)
Definition call_Jung_Radermacher m x rhol rhog mul mug D (roughness L : option R) :=
  let! r := bind_argument (Some 0) roughness in
  let! l := bind_argument (Some 1) L in
  Jung_Radermacher m x rhol rhog mul mug D r l.

(** [def Tran(m, x, rhol, rhog, mul, mug, sigma, D, roughness=0, L=1)] *)
Definition call_Tran m x rhol rhog mul mug sigma D (roughness L : option R) :=
  let! r := bind_argument (Some 0) roughness in
  let! l := bind_argument (Some 1) L in
  Tran m x rhol rhog mul mug sigma D r l.

(** [def Chen_Friedel(m, x, rhol, rhog, mul, mug, sigma, D, roughness, L)]:
    the header of line 889 gives no default to [roughness] and [L]. *)
Definition call_Chen_Friedel m x rhol rhog mul mug sigma D (roughness L : option R) :=
  let! r := bind_argument None roughness in
  let! l := bind_argument None L in
  Chen_Friedel m x rhol rhog mul mug sigma D r l.

(** [def Zhang_Webb(m, x, rhol, mul, P, Pc, D, roughness=0, L=1)] *)
Definition call_Zhang_Webb m x rhol mul Pres Pc D (roughness L : option R) :=
  let! r := bind_argument (Some 0) roughness in
  let! l := bind_argument (Some 1) L in
  Zhang_Webb m x rhol mul Pres Pc D r l.

End Calls.

(* ------------------------------------------------------------------ *)
(** ** What the specification says, in its own words *)

(** The [B] table of the specification (section 4.2), over the reals. *)
Definition Chisholm_B_documented (Gamma G_tp : R) : R :=
  if Rle_dec Gamma 9.5 then
    (if Rle_dec G_tp 500 then 4.8
     else if Rlt_dec G_tp 1900 then 2400 / G_tp
     else 55 / sqrt G_tp)
  else if Rle_dec Gamma 28 then
    (if Rle_dec G_tp 600 then 520 / (Gamma * sqrt G_tp)
     else 21 / Gamma)
  else 15000 / (Gamma ^ 2 * sqrt G_tp).

(** Modelled from the spec: [homogeneous(x, rhol, rhog)] of
    [fluids.two_phase_voidage] is not part of the source.  The specification
    gives it as the void fraction, in [0,1], of the homogeneous model, which
    treats the mixture as one fluid with the flow-weighted average density:
    the gas share of the volume flow. *)
Definition homogeneous_model (x rhol rhog : R) : outcome R :=
  let! qg := x // rhog in
  let! ql := (1 - x) // rhol in
  qg // (qg + ql).

(* ------------------------------------------------------------------ *)
(** ** Contracts of the collaborators *)

Section Contracts.

Context {P : Providers}.

(** The friction factor of a flow is a positive number. *)
Definition friction_positive : Prop :=
  forall Re eD, 0 < Re -> 0 <= eD ->
    holds (fun fd => 0 < fd) (friction_factor Re eD).

(** The Reynolds number of a flow is a positive number. *)
Definition Reynolds_positive : Prop :=
  forall V rho mu D, 0 < V -> 0 < rho -> 0 < mu -> 0 < D ->
    holds (fun Re => 0 < Re) (Reynolds V rho mu D).

(** The squared Froude number of a flow is positive. *)
Definition Froude_positive : Prop :=
  forall V L, 0 < V -> 0 < L -> holds (fun Fr => 0 < Fr) (Froude V L true).

Definition Weber_positive : Prop :=
  forall V L rho sigma, 0 < V -> 0 < L -> 0 < rho -> 0 < sigma ->
    holds (fun We => 0 < We) (Weber V L rho sigma).

(** The homogeneous void fraction lies in [0,1]. *)
Definition homogeneous_in_unit : Prop :=
  forall x rhol rhog, 0 <= x <= 1 -> 0 < rhol -> 0 < rhog ->
    holds (fun a => 0 <= a <= 1) (homogeneous x rhol rhog).

Definition Confinement_nonneg (D rhol rhog sigma : R) : Prop :=
  holds (fun Co => 0 <= Co) (Confinement D rhol rhog sigma).

End Contracts.

Arguments friction_positive : clear implicits.
Arguments Reynolds_positive : clear implicits.
Arguments Froude_positive : clear implicits.
Arguments Weber_positive : clear implicits.
Arguments homogeneous_in_unit : clear implicits.

(** Physically valid flow state and geometry (specification, section 3). *)
Record valid_input (m x rhol rhog mul mug D roughness L : R) : Prop := {
  valid_m : 0 < m;
  valid_x : 0 <= x <= 1;
  valid_rhol : 0 < rhol;
  valid_rhog : 0 < rhog;
  valid_mul : 0 < mul;
  valid_mug : 0 < mug;
  valid_D : 0 < D;
  valid_roughness : 0 <= roughness;
  valid_L : 0 < L
}.

(* ------------------------------------------------------------------ *)
(** ** A reference instance of the collaborators

    Modelled from the spec: the providers of section 6 are not part of the
    source.  This instance gives the dimensionless groups their textbook
    definitions (the Froude, Weber and quartered Bond formulas are those the
    docstrings of [Friedel] and [Chen_Friedel] quote), the homogeneous void
    fraction as [homogeneous_model], and the laminar law [64/Re] as the
    friction factor.  It serves to instantiate the theorems and to exhibit
    counterexamples; no theorem about the correlations assumes it. *)

Definition g_earth : R := 9.80665.

Definition std_friction_factor (Re eD : R) : outcome R := 64 // Re.

Definition std_Reynolds (V rho mu D : R) : outcome R :=
  let! nu := mu // rho in (V * D) // nu.

Definition std_Froude (V L : R) (squared : bool) : outcome R :=
  let! s := (L * g_earth) ** 0.5 in
  let! Fr := V // s in
  Val (if squared then Fr * Fr else Fr).

Definition std_Weber (V L rho sigma : R) : outcome R :=
  (V ^ 2 * L * rho) // sigma.

Definition std_Bond (rhol rhog sigma L : R) : outcome R :=
  (g_earth * (rhol - rhog) * L ^ 2) // sigma.

Definition std_Confinement (D rhol rhog sigma : R) : outcome R :=
  let! q := sigma // (g_earth * (rhol - rhog)) in
  let! s := q ** 0.5 in
  s // D.

Definition std_Xtt (x rhol rhog mul mug : R) : outcome R :=
  let! q := (1 - x) // x in
  let! a := q ** 0.9 in
  let! r := rhog // rhol in
  let! b := r ** 0.5 in
  let! s := mul // mug in
  let! c := s ** 0.1 in
  Val (a * b * c).

Definition std_providers : Providers := {|
  friction_factor := std_friction_factor;
  Reynolds := std_Reynolds;
  Froude := std_Froude;
  Weber := std_Weber;
  Bond := std_Bond;
  Confinement := std_Confinement;
  homogeneous := homogeneous_model;
  Lockhart_Martinelli_Xtt := std_Xtt
|}.

(** The providers [P] with the homogeneous void fraction replaced by
    [homogeneous_model]; for a correlation that does not call [homogeneous]
    nothing changes. *)
Definition with_homogeneous_model (P : Providers) : Providers := {|
  friction_factor := @friction_factor P;
  Reynolds := @Reynolds P;
  Froude := @Froude P;
  Weber := @Weber P;
  Bond := @Bond P;
  Confinement := @Confinement P;
  homogeneous := homogeneous_model;
  Lockhart_Martinelli_Xtt := @Lockhart_Martinelli_Xtt P
|}.

Section Derived.

Context {P : Providers}.

(** The factor [Omega] of Chen_Friedel as a function of the arguments of the
    call: the liquid-only Reynolds number (lines 972-973), the homogeneous
    density and velocity and the Weber number (lines 987-992), the quartered
    Bond number (line 1000), then lines 1002-1008. *)
Definition Chen_factor (m x rhol rhog mul mug sigma D roughness : R) : outcome R :=
  let! '(v_lo, Re_lo, fd_lo) := phase_friction m rhol mul D roughness in
  let! rho_h := rho_h_direct x rhol rhog in
  let! Q_h := m // rho_h in
  let! v_h := Q_h // (PI / 4 * D ^ 2) in
  let! We := Weber v_h D rho_h sigma in
  let! Bo4 := Bond rhol rhog sigma D in
  let! Bo := Bo4 // 4 in
  Chen_Omega m x rhog mug D Re_lo We Bo.

End Derived.

(** The exponent [n] and the [epsilon] of Theissing (lines 721-724) as real
    numbers, for positive drops and a quality inside (0,1), where no
    operation of these lines can fail but the division by [n]. *)
Definition Theissing_n (x dP_lo dP_go dP_l dP_g : R) : R :=
  (ln (dP_l / dP_lo) / ln (1 - x)
   + ln (dP_g / dP_go) / ln x * Rpower (dP_g / dP_l) 0.1)
  / (1 + Rpower (dP_g / dP_l) 0.1).

Definition Theissing_epsilon (rhol rhog n : R) : R :=
  3 - 2 * Rpower (2 * Rpower (rhol / rhog) 0.5 / (1 + rhol / rhog)) (0.7 / n).

(** Lines 725-726 with the exponents given. *)
Definition Theissing_blend (x dP_lo dP_go n epsilon : R) : R :=
  Rpower (Rpower dP_lo (1 / (n * epsilon)) * Rpower (1 - x) (1 / epsilon)
          + Rpower dP_go (1 / (n * epsilon)) * Rpower x (1 / epsilon))
         (n * epsilon).

(* ------------------------------------------------------------------ *)
(** * Properties *)

(** ** Arithmetic *)

Ltac pos :=
  repeat match goal with
  | |- _ <> 0 => apply Rgt_not_eq
  | |- _ > _ => unfold Rgt
  | |- 0 < _ * _ => apply Rmult_lt_0_compat
  | |- 0 < _ / _ => apply Rdiv_lt_0_compat
  | |- 0 < / _ => apply Rinv_0_lt_compat
  | |- 0 < _ ^ _ => apply pow_lt
  | |- 0 < PI => apply PI_RGT_0
  | |- 0 < Rpower _ _ => unfold Rpower; apply exp_pos
  | |- 0 < exp _ => apply exp_pos
  | |- 0 < sqrt _ => apply sqrt_lt_R0
  end; try assumption; try lra.

(** Products of non-negative factors. *)
Ltac prod_nonneg :=
  repeat match goal with
         | |- 0 <= _ * _ => apply Rmult_le_pos
         end;
  try assumption; try lra.

Lemma fdiv_val a b : b <> 0 -> a // b = Val (a / b).
Proof.
  intro Hb. unfold fdiv. destruct (Req_dec_T b 0); [contradiction | reflexivity].
Qed.

Lemma fdiv_zero a : a // 0 = Raise ZeroDivisionError.
Proof.
  unfold fdiv. destruct (Req_dec_T 0 0) as [_ | n]; [reflexivity | now destruct n].
Qed.

Lemma fpow_pos a b : 0 < a -> a ** b = Val (Rpower a b).
Proof.
  intro Ha. unfold fpow.
  destruct (Req_dec_T b 0) as [-> | _].
  - rewrite Rpower_O by assumption. reflexivity.
  - destruct (Rlt_dec 0 a); [reflexivity | contradiction].
Qed.

Lemma fpow_zero b : 0 < b -> 0 ** b = Val 0.
Proof.
  intro Hb. unfold fpow.
  destruct (Req_dec_T b 0); [lra |].
  destruct (Rlt_dec 0 0); [lra |].
  destruct (Req_dec_T 0 0) as [_ | Hne]; [| now destruct Hne].
  destruct (Rlt_dec 0 b); [reflexivity | contradiction].
Qed.

Lemma Rpower_one b : Rpower 1 b = 1.
Proof. unfold Rpower. rewrite ln_1, Rmult_0_r. apply exp_0. Qed.

Lemma fpow_one b : 1 ** b = Val 1.
Proof. rewrite fpow_pos by lra. now rewrite Rpower_one. Qed.

Lemma fpow_nonneg a b :
  0 <= a -> 0 < b -> exists v, a ** b = Val v /\ 0 <= v /\ (0 < a -> 0 < v).
Proof.
  intros Ha Hb. destruct (Rle_lt_or_eq_dec 0 a Ha) as [Hlt | <-].
  - exists (Rpower a b). rewrite fpow_pos by assumption.
    assert (0 < Rpower a b) by pos. repeat split; auto; lra.
  - exists 0. rewrite fpow_zero by assumption. repeat split; lra.
Qed.

Lemma flog_pos a : 0 < a -> flog a = Val (ln a).
Proof.
  intro Ha. unfold flog. destruct (Rlt_dec 0 a); [reflexivity | contradiction].
Qed.

Lemma Rpower_half_sqrt r : 0 < r -> Rpower r 0.5 = sqrt r.
Proof.
  intro Hr. replace 0.5 with (/ 2) by lra. now apply Rpower_sqrt.
Qed.

Lemma Rpower_half_sq r : 0 < r -> Rpower r 0.5 ^ 2 = r.
Proof.
  intro Hr. rewrite Rpower_half_sqrt by assumption.
  simpl. rewrite Rmult_1_r. apply sqrt_sqrt. lra.
Qed.

Lemma Rpower_neg_half g : 0 < g -> Rpower g (-0.5) = / sqrt g.
Proof.
  intro Hg. replace (-0.5) with (- / 2) by lra.
  rewrite Rpower_Ropp, Rpower_sqrt by assumption. reflexivity.
Qed.

(** A negative base with the exponent 0.7 is a domain error. *)
Lemma not_integer_07 : is_integer 0.7 = false.
Proof.
  unfold is_integer. destruct (Req_dec_T 0.7 (IZR (Int_part 0.7))) as [e | _];
    [| reflexivity].
  exfalso.
  assert (H : IZR 7 = IZR (10 * Int_part 0.7)) by (rewrite mult_IZR; lra).
  apply eq_IZR in H. lia.
Qed.

Lemma fpow_negative_07 a : a < 0 -> a ** 0.7 = Raise ValueError.
Proof.
  intro Ha. unfold fpow.
  destruct (Req_dec_T 0.7 0); [lra |].
  destruct (Rlt_dec 0 a); [lra |].
  destruct (Req_dec_T a 0); [lra |].
  now rewrite not_integer_07.
Qed.

(** ** Outcomes *)

Lemma scale_Val k v : scale k (Val v) = Val (k * v).
Proof. reflexivity. Qed.

(** Reduction of a bound value, as an equation: rewriting with it keeps the
    rest of a long body untouched. *)
Lemma andThen_Val {A B : Type} (a : A) (k : A -> outcome B) :
  andThen (Val a) k = k a.
Proof. reflexivity. Qed.

Ltac next := rewrite !andThen_Val.

Lemma holds_Val {A} (Q : A -> Prop) c :
  holds Q c -> exists v, c = Val v /\ Q v.
Proof. destruct c; simpl; [eauto | tauto]. Qed.

(** ** The single-phase block *)

Section SinglePhase.

Context {P : Providers}.

Lemma phase_velocity_val flow rho D :
  rho <> 0 -> D <> 0 ->
  phase_velocity flow rho D = Val (flow / rho / (PI / 4 * D ^ 2)).
Proof.
  intros Hr HD. unfold phase_velocity.
  rewrite fdiv_val by assumption. cbn [andThen].
  rewrite fdiv_val; [reflexivity |].
  apply Rmult_integral_contrapositive_currified.
  - pose proof PI_RGT_0. lra.
  - now apply pow_nonzero.
Qed.

Lemma phase_dP_val fd L D rho v :
  D <> 0 -> phase_dP fd L D rho v = Val (fd * L / D * (0.5 * rho * v ^ 2)).
Proof.
  intro HD. unfold phase_dP. now rewrite fdiv_val.
Qed.

Lemma phase_dP_scale k fd L D rho v :
  phase_dP fd (k * L) D rho v = scale k (phase_dP fd L D rho v).
Proof.
  unfold phase_dP, fdiv. destruct (Req_dec_T D 0); cbn [andThen scale]; [reflexivity |].
  f_equal. field. assumption.
Qed.

Lemma phase_friction_ok flow rho mu D roughness :
  friction_positive P -> Reynolds_positive P ->
  0 < flow -> 0 < rho -> 0 < mu -> 0 < D -> 0 <= roughness ->
  exists Re fd,
    phase_friction flow rho mu D roughness
      = Val (flow / rho / (PI / 4 * D ^ 2), Re, fd)
    /\ 0 < Re /\ 0 < fd.
Proof.
  intros Hff HRe Hf Hr Hm HD Hro. unfold phase_friction.
  rewrite phase_velocity_val by lra. cbn [andThen].
  assert (Hv : 0 < flow / rho / (PI / 4 * D ^ 2)) by pos.
  destruct (holds_Val _ _ (HRe _ rho mu D Hv Hr Hm HD)) as (Re & -> & HRepos).
  cbn [andThen]. rewrite fdiv_val by lra. cbn [andThen].
  assert (HeD : 0 <= roughness / D).
  { apply Rmult_le_pos; [assumption |]. left. now apply Rinv_0_lt_compat. }
  destruct (holds_Val _ _ (Hff Re _ HRepos HeD)) as (fd & -> & Hfd).
  cbn [andThen]. eauto.
Qed.

(** The drop of one phase flowing alone is a positive number. *)
Lemma single_phase_drop_ok flow rho mu D roughness L :
  friction_positive P -> Reynolds_positive P ->
  0 < flow -> 0 < rho -> 0 < mu -> 0 < D -> 0 <= roughness -> 0 < L ->
  exists Re fd,
    phase_friction flow rho mu D roughness
      = Val (flow / rho / (PI / 4 * D ^ 2), Re, fd)
    /\ 0 < Re /\ 0 < fd
    /\ single_phase_drop flow rho mu D roughness L
       = Val (fd * L / D * (0.5 * rho * (flow / rho / (PI / 4 * D ^ 2)) ^ 2))
    /\ 0 < fd * L / D * (0.5 * rho * (flow / rho / (PI / 4 * D ^ 2)) ^ 2).
Proof.
  intros Hff HRe Hf Hr Hm HD Hro HL.
  destruct (phase_friction_ok Hff HRe Hf Hr Hm HD Hro) as (Re & fd & E & H1 & H2).
  exists Re, fd. unfold single_phase_drop. rewrite E. cbn [andThen].
  rewrite phase_dP_val by lra. repeat split; auto. pos.
Qed.

End SinglePhase.

(** ** The coefficient table of Chisholm *)

Lemma Chisholm_B_table Gamma G_tp :
  0 < Gamma -> 0 < G_tp ->
  Chisholm_B Gamma G_tp = Val (Chisholm_B_documented Gamma G_tp).
Proof.
  intros HG Hg. unfold Chisholm_B, Chisholm_B_documented.
  assert (Hs : 0 < sqrt G_tp) by pos.
  repeat match goal with
         | |- context [Rle_dec ?a ?b] => destruct (Rle_dec a b)
         | |- context [Rlt_dec ?a ?b] => destruct (Rlt_dec a b)
         end;
    rewrite ?fpow_pos by assumption; cbn [andThen];
    rewrite ?Rpower_neg_half by assumption;
    rewrite ?fdiv_val by pos;
    try reflexivity; f_equal; field; pos.
Qed.

Section ValidInput.

Context {P : Providers}.
Hypothesis Hff : friction_positive P.
Hypothesis HRe : Reynolds_positive P.

Variables m rhol rhog mul mug D roughness L : R.
Hypothesis Hm : 0 < m.
Hypothesis Hrhol : 0 < rhol.
Hypothesis Hrhog : 0 < rhog.
Hypothesis Hmul : 0 < mul.
Hypothesis Hmug : 0 < mug.
Hypothesis HD : 0 < D.
Hypothesis Hrough : 0 <= roughness.
Hypothesis HL : 0 < L.

(** Both single-phase blocks run to their end, with positive drops whose
    ratio is the ratio of the friction factors times the density ratio. *)
Lemma both_phases :
  exists Re_lo fd_lo Re_go fd_go dP_lo dP_go,
    phase_friction m rhol mul D roughness
      = Val (m / rhol / (PI / 4 * D ^ 2), Re_lo, fd_lo)
    /\ phase_friction m rhog mug D roughness
      = Val (m / rhog / (PI / 4 * D ^ 2), Re_go, fd_go)
    /\ phase_dP fd_lo L D rhol (m / rhol / (PI / 4 * D ^ 2)) = Val dP_lo
    /\ phase_dP fd_go L D rhog (m / rhog / (PI / 4 * D ^ 2)) = Val dP_go
    /\ single_phase_drop m rhol mul D roughness L = Val dP_lo
    /\ single_phase_drop m rhog mug D roughness L = Val dP_go
    /\ 0 < Re_lo /\ 0 < fd_lo /\ 0 < Re_go /\ 0 < fd_go
    /\ 0 < dP_lo /\ 0 < dP_go
    /\ dP_go = rhol * fd_go / (rhog * fd_lo) * dP_lo.
Proof.
  destruct (single_phase_drop_ok (L := L) Hff HRe Hm Hrhol Hmul HD Hrough HL)
    as (Re_lo & fd_lo & El & HRl & Hfl & Sl & Pl).
  destruct (single_phase_drop_ok (L := L) Hff HRe Hm Hrhog Hmug HD Hrough HL)
    as (Re_go & fd_go & Eg & HRg & Hfg & Sg & Pg).
  exists Re_lo, fd_lo, Re_go, fd_go.
  eexists. eexists.
  rewrite !phase_dP_val by lra.
  repeat split; try eassumption; try reflexivity.
  field. pose proof PI_RGT_0. repeat split; lra.
Qed.

Ltac with_phases :=
  destruct both_phases
    as (Re_lo & fd_lo & Re_go & fd_go & dP_lo & dP_go & El & Eg & Dl & Dg
        & Sl & Sg & HRl & Hfl & HRg & Hfg & Pl & Pg & Hratio).

(** *** Theissing *)

Lemma Theissing_x0 :
  Theissing m 0 rhol rhog mul mug D roughness L
  = single_phase_drop m rhol mul D roughness L.
Proof.
  with_phases. unfold Theissing. rewrite El, Sl. cbn [andThen].
  rewrite Dl, Eg. cbn [andThen]. rewrite Dg. cbn [andThen].
  destruct (Req_dec_T 0 0) as [_ | Hne]; [reflexivity | now destruct Hne].
Qed.

Lemma Theissing_x1 :
  Theissing m 1 rhol rhog mul mug D roughness L
  = single_phase_drop m rhog mug D roughness L.
Proof.
  with_phases. unfold Theissing. rewrite El, Sg. cbn [andThen].
  rewrite Dl, Eg. cbn [andThen]. rewrite Dg. cbn [andThen].
  destruct (Req_dec_T 1 0); [lra |].
  destruct (Req_dec_T 1 1) as [_ | Hne]; [reflexivity | now destruct Hne].
Qed.

(** *** Muller_Steinhagen_Heck *)

Lemma Muller_Steinhagen_Heck_x0 :
  Muller_Steinhagen_Heck m 0 rhol rhog mul mug D roughness L
  = single_phase_drop m rhol mul D roughness L.
Proof.
  with_phases. unfold Muller_Steinhagen_Heck. rewrite El, Sl. cbn [andThen].
  rewrite Dl, Eg. cbn [andThen]. rewrite Dg. cbn [andThen].
  rewrite Rminus_0_r, fpow_one. cbn [andThen]. f_equal. ring.
Qed.

Lemma Muller_Steinhagen_Heck_x1 :
  Muller_Steinhagen_Heck m 1 rhol rhog mul mug D roughness L
  = single_phase_drop m rhog mug D roughness L.
Proof.
  with_phases. unfold Muller_Steinhagen_Heck. rewrite El, Sg. cbn [andThen].
  rewrite Dl, Eg. cbn [andThen]. rewrite Dg. cbn [andThen].
  replace (1 - 1) with 0 by ring. rewrite fpow_zero by lra.
  cbn [andThen]. f_equal. ring.
Qed.

(** *** Chisholm and Baroczy_Chisholm *)

Lemma Chisholm_phi2_x0 Gamma B :
  Chisholm_phi2 Gamma B 0.25 0 = Val 1.
Proof.
  unfold Chisholm_phi2. rewrite !fpow_zero by lra. cbn [andThen].
  rewrite Rminus_0_r, fpow_one. cbn [andThen]. f_equal. ring.
Qed.

Lemma Chisholm_phi2_x1 Gamma B :
  Chisholm_phi2 Gamma B 0.25 1 = Val (Gamma ^ 2).
Proof.
  unfold Chisholm_phi2. rewrite !fpow_one. cbn [andThen].
  replace (1 - 1) with 0 by ring. rewrite fpow_zero by lra.
  cbn [andThen]. f_equal. ring.
Qed.

(** The body of Chisholm without the roughness correction, once both
    single-phase blocks have run. *)
Lemma Chisholm_unfolded x :
  exists dP_lo dP_go,
    single_phase_drop m rhol mul D roughness L = Val dP_lo
    /\ single_phase_drop m rhog mug D roughness L = Val dP_go
    /\ 0 < dP_lo /\ 0 < dP_go
    /\ Chisholm m x rhol rhog mul mug D roughness L false
       = (let! phi2 :=
            Chisholm_phi2 (sqrt (dP_go / dP_lo))
              (Chisholm_B_documented (sqrt (dP_go / dP_lo))
                 (m / (PI / 4 * D ^ 2))) 0.25 x in
          Val (phi2 * dP_lo)).
Proof.
  with_phases. exists dP_lo, dP_go. repeat split; auto.
  unfold Chisholm. rewrite fdiv_val by pos. cbn [andThen].
  rewrite El. cbn [andThen]. rewrite Dl, Eg. cbn [andThen].
  rewrite Dg. cbn [andThen]. rewrite fdiv_val by lra. cbn [andThen].
  assert (Hr : 0 < dP_go / dP_lo) by pos.
  rewrite fpow_pos, Rpower_half_sqrt by assumption. cbn [andThen].
  rewrite Chisholm_B_table by pos. cbn [andThen]. reflexivity.
Qed.

Lemma Baroczy_B_val Gamma G_tp :
  0 < Gamma -> 0 < G_tp -> exists B, Baroczy_B Gamma G_tp = Val B /\ 0 < B.
Proof.
  intros HG Hg. unfold Baroczy_B.
  repeat match goal with
         | |- context [Rle_dec ?a ?b] => destruct (Rle_dec a b)
         end;
    rewrite fpow_pos by assumption; cbn [andThen];
    rewrite ?fdiv_val by pos; eexists; (split; [reflexivity | pos]).
Qed.

Lemma Baroczy_unfolded x :
  exists dP_lo dP_go B,
    single_phase_drop m rhol mul D roughness L = Val dP_lo
    /\ single_phase_drop m rhog mug D roughness L = Val dP_go
    /\ 0 < dP_lo /\ 0 < dP_go /\ 0 < B
    /\ Baroczy_Chisholm m x rhol rhog mul mug D roughness L
       = (let! phi2 := Chisholm_phi2 (sqrt (dP_go / dP_lo)) B 0.25 x in
          Val (phi2 * dP_lo)).
Proof.
  with_phases.
  assert (Hr : 0 < dP_go / dP_lo) by pos.
  destruct (@Baroczy_B_val (sqrt (dP_go / dP_lo)) (m / (PI / 4 * D ^ 2)))
    as (B & EB & HB); [pos | pos |].
  exists dP_lo, dP_go, B. repeat split; auto.
  unfold Baroczy_Chisholm. rewrite fdiv_val by pos. cbn [andThen].
  rewrite El. cbn [andThen]. rewrite Dl, Eg. cbn [andThen].
  rewrite Dg. cbn [andThen]. rewrite fdiv_val by lra. cbn [andThen].
  rewrite fpow_pos, Rpower_half_sqrt by assumption. cbn [andThen].
  rewrite EB. cbn [andThen]. reflexivity.
Qed.

Lemma sqrt_ratio_sq a b : 0 < a -> 0 < b -> sqrt (a / b) ^ 2 * b = a.
Proof.
  intros Ha Hb. simpl. rewrite Rmult_1_r, sqrt_sqrt.
  - field. lra.
  - left. pos.
Qed.

Lemma Chisholm_x0 :
  Chisholm m 0 rhol rhog mul mug D roughness L false
  = single_phase_drop m rhol mul D roughness L.
Proof.
  destruct (Chisholm_unfolded 0) as (dP_lo & dP_go & Sl & Sg & Pl & Pg & E).
  rewrite E, Sl, Chisholm_phi2_x0. cbn [andThen]. f_equal. ring.
Qed.

Lemma Chisholm_x1 :
  Chisholm m 1 rhol rhog mul mug D roughness L false
  = single_phase_drop m rhog mug D roughness L.
Proof.
  destruct (Chisholm_unfolded 1) as (dP_lo & dP_go & Sl & Sg & Pl & Pg & E).
  rewrite E, Sg, Chisholm_phi2_x1. cbn [andThen]. f_equal.
  now apply sqrt_ratio_sq.
Qed.

Lemma Baroczy_Chisholm_x0 :
  Baroczy_Chisholm m 0 rhol rhog mul mug D roughness L
  = single_phase_drop m rhol mul D roughness L.
Proof.
  destruct (Baroczy_unfolded 0) as (dP_lo & dP_go & B & Sl & Sg & Pl & Pg & HB & E).
  rewrite E, Sl, Chisholm_phi2_x0. cbn [andThen]. f_equal. ring.
Qed.

Lemma Baroczy_Chisholm_x1 :
  Baroczy_Chisholm m 1 rhol rhog mul mug D roughness L
  = single_phase_drop m rhog mug D roughness L.
Proof.
  destruct (Baroczy_unfolded 1) as (dP_lo & dP_go & B & Sl & Sg & Pl & Pg & HB & E).
  rewrite E, Sg, Chisholm_phi2_x1. cbn [andThen]. f_equal.
  now apply sqrt_ratio_sq.
Qed.

(** *** Friedel *)

Lemma Friedel_F_endpoint x : x = 0 \/ x = 1 -> Friedel_F x = Val 0.
Proof.
  intros [-> | ->]; unfold Friedel_F.
  - rewrite fpow_zero by lra. cbn [andThen].
    rewrite Rminus_0_r, fpow_one. cbn [andThen]. f_equal. ring.
  - rewrite fpow_one. cbn [andThen].
    replace (1 - 1) with 0 by ring. rewrite fpow_zero by lra.
    cbn [andThen]. f_equal. ring.
Qed.

Lemma Friedel_F_nonneg x :
  0 <= x <= 1 -> exists F, Friedel_F x = Val F /\ 0 <= F.
Proof.
  intros [H0 H1]. unfold Friedel_F.
  destruct (@fpow_nonneg x 0.78) as (f1 & -> & Hf1 & _); [lra | lra |].
  destruct (@fpow_nonneg (1 - x) 0.224) as (f2 & -> & Hf2 & _); [lra | lra |].
  cbn [andThen]. eexists. split; [reflexivity |]. now apply Rmult_le_pos.
Qed.

(** The factor [H] when the gas is not more viscous than the liquid. *)
Lemma Friedel_H_nonneg :
  mug <= mul -> exists H, Friedel_H rhol rhog mul mug = Val H /\ 0 <= H.
Proof.
  intro Hle. unfold Friedel_H.
  rewrite (@fdiv_val rhol rhog) by lra. cbn [andThen].
  rewrite fpow_pos by pos. cbn [andThen].
  rewrite (@fdiv_val mug mul) by lra. cbn [andThen].
  rewrite fpow_pos by pos. cbn [andThen].
  assert (Hs : mug / mul <= 1).
  { apply Rmult_le_reg_r with mul; [assumption |].
    unfold Rdiv. rewrite Rmult_assoc, Rinv_l by lra. lra. }
  destruct (@fpow_nonneg (1 - mug / mul) 0.7) as (h3 & -> & Hh3 & _);
    [lra | lra |].
  cbn [andThen]. eexists. split; [reflexivity |].
  apply Rmult_le_pos; [| assumption].
  left. apply Rmult_lt_0_compat; pos.
Qed.

(** The factor [H] when the gas is strictly less viscous than the liquid:
    the base of the power 0.7 is positive. *)
Lemma Friedel_H_positive :
  mug < mul ->
  0 < 1 - mug / mul /\
  Friedel_H rhol rhog mul mug
  = Val (Rpower (rhol / rhog) 0.91 * Rpower (mug / mul) 0.19
         * Rpower (1 - mug / mul) 0.7).
Proof.
  intro Hlt.
  assert (Hs : mug / mul < 1).
  { apply Rmult_lt_reg_r with mul; [assumption |].
    unfold Rdiv. rewrite Rmult_assoc, Rinv_l by lra. lra. }
  split; [lra |]. unfold Friedel_H.
  rewrite (@fdiv_val rhol rhog) by lra. cbn [andThen].
  rewrite fpow_pos by pos. cbn [andThen].
  rewrite (@fdiv_val mug mul) by lra. cbn [andThen].
  rewrite fpow_pos by pos. cbn [andThen].
  rewrite fpow_pos by lra. reflexivity.
Qed.

(** The factor [H] when the gas is more viscous than the liquid: the base
    of the power 0.7 is negative. *)
Lemma Friedel_H_domain_error :
  mul < mug ->
  1 - mug / mul < 0 /\ Friedel_H rhol rhog mul mug = Raise ValueError.
Proof.
  intro Hlt.
  assert (Hs : 1 < mug / mul).
  { apply Rmult_lt_reg_r with mul; [assumption |].
    unfold Rdiv. rewrite Rmult_assoc, Rinv_l by lra. lra. }
  split; [lra |]. unfold Friedel_H.
  rewrite (@fdiv_val rhol rhog) by lra. cbn [andThen].
  rewrite fpow_pos by pos. cbn [andThen].
  rewrite (@fdiv_val mug mul) by lra. cbn [andThen].
  rewrite fpow_pos by pos. cbn [andThen].
  rewrite fpow_negative_07 by lra. reflexivity.
Qed.

(** The body of Friedel once every step has run: the multiplier is
    [E + 3.24*F*H/d] with [d] the positive product of the Froude and Weber
    powers. *)
Lemma Friedel_unfolded x sigma :
  0 <= x <= 1 -> 0 < sigma -> mug <= mul ->
  holds (fun a => 0 <= a <= 1) (homogeneous x rhol rhog) ->
  Froude_positive P -> Weber_positive P ->
  exists fd_lo fd_go dP_lo dP_go F H d,
    single_phase_drop m rhol mul D roughness L = Val dP_lo
    /\ single_phase_drop m rhog mug D roughness L = Val dP_go
    /\ 0 < dP_lo /\ 0 < dP_go /\ 0 < fd_lo /\ 0 < fd_go
    /\ dP_go = rhol * fd_go / (rhog * fd_lo) * dP_lo
    /\ Friedel_F x = Val F /\ 0 <= F /\ 0 <= H /\ 0 < d
    /\ Friedel m x rhol rhog mul mug sigma D roughness L
       = Val (((1 - x) ^ 2 + x ^ 2 * (rhol * fd_go / (rhog * fd_lo))
               + 3.24 * F * H / d) * dP_lo).
Proof.
  intros Hx Hsig Hvis Hhom HFr HWe. with_phases.
  destruct (@Friedel_F_nonneg x Hx) as (F & EF & HF).
  destruct (Friedel_H_nonneg Hvis) as (H & EH & HH).
  destruct (holds_Val _ _ Hhom) as (al & Eal & Hal).
  set (rho_h := rhol * (1 - al) + rhog * al).
  assert (Hrho : 0 < rho_h) by (unfold rho_h; nra).
  assert (Hvh : 0 < m / rho_h / (PI / 4 * D ^ 2)) by pos.
  destruct (holds_Val _ _ (HFr _ D Hvh HD)) as (Fr & EFr & HFrp).
  destruct (holds_Val _ _ (HWe _ D rho_h sigma Hvh HD Hrho Hsig))
    as (We & EWe & HWep).
  exists fd_lo, fd_go, dP_lo, dP_go, F, H,
    (Rpower Fr 0.0454 * Rpower We 0.035).
  repeat split; auto; [apply Rmult_lt_0_compat; pos |].
  unfold Friedel. rewrite El. cbn [andThen]. rewrite Dl, Eg. cbn [andThen].
  rewrite EF, EH. cbn [andThen].
  unfold Friedel_E. rewrite fdiv_val by pos. cbn [andThen].
  unfold rho_homogeneous. rewrite Eal. cbn [andThen]. fold rho_h.
  rewrite fdiv_val by lra. cbn [andThen].
  rewrite fdiv_val by pos. cbn [andThen].
  rewrite EFr. cbn [andThen]. rewrite EWe. cbn [andThen].
  unfold Friedel_phi. rewrite !fpow_pos by assumption. cbn [andThen].
  rewrite fdiv_val by (apply Rgt_not_eq; apply Rmult_lt_0_compat; pos).
  reflexivity.
Qed.

Lemma Friedel_x0 sigma :
  0 < sigma -> mug <= mul ->
  holds (fun a => 0 <= a <= 1) (homogeneous 0 rhol rhog) ->
  Froude_positive P -> Weber_positive P ->
  Friedel m 0 rhol rhog mul mug sigma D roughness L
  = single_phase_drop m rhol mul D roughness L.
Proof.
  intros Hsig Hvis Hhom HFr HWe.
  destruct (@Friedel_unfolded 0 sigma) as
    (fd_lo & fd_go & dP_lo & dP_go & F & H & d & Sl & Sg & Pl & Pg & Hfl & Hfg
     & Hratio & EF & HF & HH & Hd & E); auto; [lra |].
  rewrite Friedel_F_endpoint in EF by auto. injection EF as <-.
  rewrite E, Sl. f_equal. field. lra.
Qed.

Lemma Friedel_x1 sigma :
  0 < sigma -> mug <= mul ->
  holds (fun a => 0 <= a <= 1) (homogeneous 1 rhol rhog) ->
  Froude_positive P -> Weber_positive P ->
  Friedel m 1 rhol rhog mul mug sigma D roughness L
  = single_phase_drop m rhog mug D roughness L.
Proof.
  intros Hsig Hvis Hhom HFr HWe.
  destruct (@Friedel_unfolded 1 sigma) as
    (fd_lo & fd_go & dP_lo & dP_go & F & H & d & Sl & Sg & Pl & Pg & Hfl & Hfg
     & Hratio & EF & HF & HH & Hd & E); auto; [lra |].
  rewrite Friedel_F_endpoint in EF by auto. injection EF as <-.
  rewrite E, Sg. f_equal. rewrite Hratio. field. lra.
Qed.

(** Friedel raises when the gas is more viscous than the liquid. *)
Lemma Friedel_viscous_gas x sigma :
  mul < mug ->
  Friedel m x rhol rhog mul mug sigma D roughness L = Raise ValueError
  \/ exists e, Friedel_F x = Raise e
                /\ Friedel m x rhol rhog mul mug sigma D roughness L = Raise e.
Proof.
  intro Hlt. with_phases. unfold Friedel.
  rewrite El. cbn [andThen]. rewrite Dl, Eg. cbn [andThen].
  destruct (Friedel_F x) as [F | e]; cbn [andThen].
  - left. now rewrite (proj2 (Friedel_H_domain_error Hlt)).
  - right. eauto.
Qed.

End ValidInput.

(** ** Running a body step by step

    [run_head] takes the first computation of the left-hand side, splits on
    its outcome, and closes the case in which it raises (both sides then
    raise the same exception). *)

Ltac head_of c :=
  lazymatch c with
  | andThen ?c' _ => head_of c'
  | _ => constr:(c)
  end.

Ltac split_tuples :=
  repeat match goal with
         | a : (_ * _)%type |- _ => destruct a
         end.

Ltac run_head :=
  lazymatch goal with
  | |- andThen ?c _ = _ =>
      let h := head_of c in
      destruct h; cbn [andThen]; [split_tuples | reflexivity]
  end.

Lemma fdiv_scale k a b : k <> 0 -> (k * a) // (k * b) = a // b.
Proof.
  intro Hk. unfold fdiv.
  destruct (Req_dec_T b 0) as [-> | Hb].
  - destruct (Req_dec_T (k * 0) 0) as [_ | Hne]; [reflexivity |].
    destruct Hne. ring.
  - destruct (Req_dec_T (k * b) 0) as [H0 | _].
    + apply Rmult_integral in H0. tauto.
    + f_equal. field. tauto.
Qed.

Lemma fdiv_scale_num k a b : (k * a) // b = scale k (a // b).
Proof.
  unfold fdiv, scale. destruct (Req_dec_T b 0); cbn [andThen]; [reflexivity |].
  f_equal. unfold Rdiv. ring.
Qed.

(** [run_length k] is [run_head] for a body run at the length [k * L]
    against the same body at [L]: the fourth line of a single-phase block
    is first rewritten with [phase_dP_scale]. *)
Ltac run_length k :=
  lazymatch goal with
  | |- andThen ?c _ = _ =>
      let h := head_of c in
      lazymatch h with
      | phase_dP _ (k * _) _ _ _ => rewrite phase_dP_scale; unfold scale at 1
      | (k * _) // (k * _) => rewrite fdiv_scale by assumption
      | _ => destruct h; cbn [andThen]; [split_tuples | reflexivity]
      end
  end.

Section Length.

Context {P : Providers}.
Variable k : R.

Lemma Friedel_length m x rhol rhog mul mug sigma D roughness L :
  Friedel m x rhol rhog mul mug sigma D roughness (k * L)
  = scale k (Friedel m x rhol rhog mul mug sigma D roughness L).
Proof.
  unfold Friedel, scale. repeat run_length k. f_equal. ring.
Qed.

Lemma Gronnerud_length m x rhol rhog mul mug D roughness L :
  Gronnerud m x rhol rhog mul mug D roughness (k * L)
  = scale k (Gronnerud m x rhol rhog mul mug D roughness L).
Proof.
  unfold Gronnerud, scale. repeat run_length k. f_equal. ring.
Qed.

Lemma Jung_Radermacher_length m x rhol rhog mul mug D roughness L :
  Jung_Radermacher m x rhol rhog mul mug D roughness (k * L)
  = scale k (Jung_Radermacher m x rhol rhog mul mug D roughness L).
Proof.
  unfold Jung_Radermacher, scale. repeat run_length k. f_equal. ring.
Qed.

Lemma Zhang_Webb_length m x rhol mul Pres Pc D roughness L :
  Zhang_Webb m x rhol mul Pres Pc D roughness (k * L)
  = scale k (Zhang_Webb m x rhol mul Pres Pc D roughness L).
Proof.
  unfold Zhang_Webb, scale. repeat run_length k. f_equal. ring.
Qed.

Lemma Chen_Friedel_length m x rhol rhog mul mug sigma D roughness L :
  Chen_Friedel m x rhol rhog mul mug sigma D roughness (k * L)
  = scale k (Chen_Friedel m x rhol rhog mul mug sigma D roughness L).
Proof.
  unfold Chen_Friedel, scale. repeat run_length k. f_equal. ring.
Qed.

Lemma Muller_Steinhagen_Heck_length m x rhol rhog mul mug D roughness L :
  Muller_Steinhagen_Heck m x rhol rhog mul mug D roughness (k * L)
  = scale k (Muller_Steinhagen_Heck m x rhol rhog mul mug D roughness L).
Proof.
  unfold Muller_Steinhagen_Heck, scale. repeat run_length k. f_equal. ring.
Qed.

Lemma Lombardi_Pedrocchi_length m x rhol rhog sigma D L :
  Lombardi_Pedrocchi m x rhol rhog sigma D (k * L)
  = scale k (Lombardi_Pedrocchi m x rhol rhog sigma D L).
Proof.
  unfold Lombardi_Pedrocchi, scale at 1. repeat run_head.
  match goal with
  | |- (?c * ?g * ?s * (k * L)) // _ = _ =>
      replace (c * g * s * (k * L)) with (k * (c * g * s * L)) by ring
  end.
  exact (fdiv_scale_num _ _ _).
Qed.

Hypothesis Hk : k <> 0.

Lemma Chisholm_length m x rhol rhog mul mug D roughness L b :
  Chisholm m x rhol rhog mul mug D roughness (k * L) b
  = scale k (Chisholm m x rhol rhog mul mug D roughness L b).
Proof.
  unfold Chisholm, scale. destruct b; repeat run_length k; f_equal; ring.
Qed.

Lemma Baroczy_Chisholm_length m x rhol rhog mul mug D roughness L :
  Baroczy_Chisholm m x rhol rhog mul mug D roughness (k * L)
  = scale k (Baroczy_Chisholm m x rhol rhog mul mug D roughness L).
Proof.
  unfold Baroczy_Chisholm, scale. repeat run_length k. f_equal. ring.
Qed.

Lemma Tran_length m x rhol rhog mul mug sigma D roughness L :
  Tran m x rhol rhog mul mug sigma D roughness (k * L)
  = scale k (Tran m x rhol rhog mul mug sigma D roughness L).
Proof.
  unfold Tran, scale. repeat run_length k. f_equal. ring.
Qed.

End Length.
(** *** Theissing: the blend is homogeneous of degree one in the four drops *)

Lemma Rpower_scale_inv k a p :
  0 < k -> 0 < a -> p <> 0 ->
  Rpower (Rpower k (1 / p) * a) p = k * Rpower a p.
Proof.
  intros Hk Ha Hp.
  rewrite <- Rpower_mult_distr by pos.
  rewrite Rpower_mult.
  replace (1 / p * p) with 1 by (field; assumption).
  now rewrite Rpower_1.
Qed.

Lemma Theissing_model_scale k x rhol rhog dP_lo dP_go dP_l dP_g :
  0 < k -> 0 < dP_lo -> 0 < dP_go -> 0 < x < 1 ->
  Theissing_model x rhol rhog (k * dP_lo) (k * dP_go) (k * dP_l) (k * dP_g)
  = scale k (Theissing_model x rhol rhog dP_lo dP_go dP_l dP_g).
Proof.
  intros Hk Hlo Hgo Hx. assert (Hk0 : k <> 0) by lra.
  unfold Theissing_model, scale.
  repeat lazymatch goal with
         | |- andThen ?c _ = _ =>
             let h := head_of c in
             lazymatch h with
             | 1 // _ => fail
             | (k * _) // (k * _) => rewrite fdiv_scale by assumption
             | _ => destruct h; [next | reflexivity]
             end
         end.
  match goal with
  | |- context [1 // (?n * ?eps)] =>
      set (p := n * eps); set (ep := eps); unfold fdiv;
      destruct (Req_dec_T p 0) as [Hp0 | Hp]; cbn [andThen]; [reflexivity |];
      destruct (Req_dec_T ep 0) as [He0 | He];
      [exfalso; apply Hp; unfold p; fold ep; rewrite He0; ring |]
  end.
  rewrite !(@fpow_pos (k * dP_lo)), !(@fpow_pos dP_lo) by pos.
  cbn [andThen].
  rewrite !(@fpow_pos (1 - x)) by lra. cbn [andThen].
  rewrite !(@fpow_pos (k * dP_go)), !(@fpow_pos dP_go) by pos.
  cbn [andThen].
  rewrite !(@fpow_pos x) by lra. cbn [andThen].
  set (t2 := Rpower (1 - x) (1 / ep)). set (t4 := Rpower x (1 / ep)).
  assert (H2 : 0 < t2) by (unfold t2; pos).
  assert (H4 : 0 < t4) by (unfold t4; pos).
  assert (HS : 0 < Rpower dP_lo (1 / p) * t2 + Rpower dP_go (1 / p) * t4).
  { apply Rplus_lt_0_compat; apply Rmult_lt_0_compat; pos. }
  rewrite <- !Rpower_mult_distr by assumption.
  replace (Rpower k (1 / p) * Rpower dP_lo (1 / p) * t2
           + Rpower k (1 / p) * Rpower dP_go (1 / p) * t4)
    with (Rpower k (1 / p)
          * (Rpower dP_lo (1 / p) * t2 + Rpower dP_go (1 / p) * t4)) by ring.
  rewrite !fpow_pos by (try apply Rmult_lt_0_compat; pos).
  cbn [andThen]. f_equal. now apply Rpower_scale_inv.
Qed.

Lemma Theissing_length {P : Providers} k m x rhol rhog mul mug D roughness L :
  friction_positive P -> Reynolds_positive P ->
  0 < k -> valid_input m x rhol rhog mul mug D roughness L ->
  Theissing m x rhol rhog mul mug D roughness (k * L)
  = scale k (Theissing m x rhol rhog mul mug D roughness L).
Proof.
  intros Hff HRe Hk [Hm Hx Hrl Hrg Hml Hmg HD Hro HL].
  destruct (both_phases Hff HRe Hm Hrl Hrg Hml Hmg HD Hro HL)
    as (Re_lo & fd_lo & Re_go & fd_go & dP_lo & dP_go & El & Eg & Dl & Dg
        & Sl & Sg & HRl & Hfl & HRg & Hfg & Pl & Pg & Hratio).
  unfold Theissing. rewrite El. cbn [andThen].
  rewrite phase_dP_scale, Dl. cbn [andThen scale].
  rewrite Eg. cbn [andThen].
  rewrite phase_dP_scale, Dg. cbn [andThen scale].
  destruct (Req_dec_T x 0); [reflexivity |].
  destruct (Req_dec_T x 1); [reflexivity |].
  unfold scale. repeat run_length k.
  apply Theissing_model_scale; auto. lra.
Qed.



(** ** Chen_Friedel against Friedel *)

Section ChenFriedel.

Context {P : Providers}.

Lemma rho_h_direct_val x rhol rhog :
  0 <= x <= 1 -> 0 < rhol -> 0 < rhog ->
  0 < x / rhog + (1 - x) / rhol
  /\ rho_h_direct x rhol rhog = Val (1 / (x / rhog + (1 - x) / rhol)).
Proof.
  intros Hx Hl Hg.
  assert (Hs : 0 < x / rhog + (1 - x) / rhol).
  { assert (0 <= x / rhog).
    { apply Rmult_le_pos; [lra |]. left. now apply Rinv_0_lt_compat. }
    assert (0 <= (1 - x) / rhol).
    { apply Rmult_le_pos; [lra |]. left. now apply Rinv_0_lt_compat. }
    destruct (Rle_lt_dec x (1 / 2)).
    - assert (0 < (1 - x) / rhol) by (apply Rdiv_lt_0_compat; lra). lra.
    - assert (0 < x / rhog) by (apply Rdiv_lt_0_compat; lra). lra. }
  split; [assumption |]. unfold rho_h_direct.
  rewrite !fdiv_val by lra. cbn [andThen]. now rewrite fdiv_val by lra.
Qed.

(** The density Friedel derives from the homogeneous void fraction is the
    one Chen_Friedel computes directly. *)
Lemma rho_homogeneous_direct x rhol rhog :
  0 <= x <= 1 -> 0 < rhol -> 0 < rhog ->
  homogeneous x rhol rhog = homogeneous_model x rhol rhog ->
  rho_homogeneous x rhol rhog = rho_h_direct x rhol rhog.
Proof.
  intros Hx Hl Hg Hh.
  destruct (rho_h_direct_val Hx Hl Hg) as (Hs & ->).
  unfold rho_homogeneous. rewrite Hh. unfold homogeneous_model.
  rewrite !fdiv_val by lra. cbn [andThen].
  rewrite fdiv_val by lra. cbn [andThen]. f_equal.
  assert (Hmix : 0 < x * rhol + (1 - x) * rhog) by nra.
  field. repeat split; lra.
Qed.

Lemma Chen_Friedel_factor m x rhol rhog mul mug sigma D roughness L :
  rho_homogeneous x rhol rhog = rho_h_direct x rhol rhog ->
  Chen_Friedel m x rhol rhog mul mug sigma D roughness L
  = (let! dP := Friedel m x rhol rhog mul mug sigma D roughness L in
     let! Omega := Chen_factor m x rhol rhog mul mug sigma D roughness in
     Val (dP * Omega)).
Proof.
  intro Hrho. unfold Chen_Friedel, Friedel, Chen_factor. rewrite Hrho.
  repeat run_head. reflexivity.
Qed.

End ChenFriedel.

(** ** The reference instance meets the contracts *)

Lemma std_friction_positive : @friction_positive std_providers.
Proof.
  intros Re eD HRe _. cbn. unfold std_friction_factor.
  rewrite fdiv_val by lra. cbn. pos.
Qed.

Lemma std_Reynolds_positive : @Reynolds_positive std_providers.
Proof.
  intros V rho mu D HV Hr Hm HD. cbn. unfold std_Reynolds.
  rewrite fdiv_val by lra. cbn [andThen].
  rewrite fdiv_val by pos. cbn. pos.
Qed.

Lemma std_Froude_positive : @Froude_positive std_providers.
Proof.
  intros V L HV HL. cbn. unfold std_Froude, g_earth.
  rewrite fpow_pos by pos. cbn [andThen].
  rewrite fdiv_val by pos. cbn. apply Rmult_lt_0_compat; pos.
Qed.

Lemma std_Weber_positive : @Weber_positive std_providers.
Proof.
  intros V L rho sigma HV HL Hr Hs. cbn. unfold std_Weber.
  rewrite fdiv_val by lra. cbn. pos.
Qed.

Lemma homogeneous_model_val x rhol rhog :
  0 <= x <= 1 -> 0 < rhol -> 0 < rhog ->
  homogeneous_model x rhol rhog
  = Val (x / rhog / (x / rhog + (1 - x) / rhol))
  /\ 0 <= x / rhog / (x / rhog + (1 - x) / rhol) <= 1.
Proof.
  intros Hx Hl Hg.
  destruct (@rho_h_direct_val x rhol rhog Hx Hl Hg) as (Hs & _).
  unfold homogeneous_model. rewrite !fdiv_val by lra. cbn [andThen].
  rewrite fdiv_val by lra. split; [reflexivity |].
  assert (Hqg : 0 <= x / rhog).
  { apply Rmult_le_pos; [lra |]. left. now apply Rinv_0_lt_compat. }
  assert (Hql : 0 <= (1 - x) / rhol).
  { apply Rmult_le_pos; [lra |]. left. now apply Rinv_0_lt_compat. }
  split.
  - apply Rmult_le_pos; [assumption |]. left. now apply Rinv_0_lt_compat.
  - apply Rmult_le_reg_r with (x / rhog + (1 - x) / rhol); [assumption |].
    unfold Rdiv at 1. rewrite Rmult_assoc, Rinv_l by lra. lra.
Qed.

Lemma std_homogeneous_in_unit : @homogeneous_in_unit std_providers.
Proof.
  intros x rhol rhog Hx Hl Hg. cbn.
  destruct (@homogeneous_model_val x rhol rhog Hx Hl Hg) as (-> & H).
  exact H.
Qed.

(** Laminar flow: the single-phase block of the reference instance. *)
Lemma std_phase_friction flow rho mu D roughness :
  0 < flow -> 0 < rho -> 0 < mu -> 0 < D ->
  @phase_friction std_providers flow rho mu D roughness
  = Val (flow / rho / (PI / 4 * D ^ 2),
         flow / rho / (PI / 4 * D ^ 2) * D / (mu / rho),
         64 / (flow / rho / (PI / 4 * D ^ 2) * D / (mu / rho))).
Proof.
  intros Hf Hr Hm HD. unfold phase_friction.
  rewrite phase_velocity_val by lra. cbn [andThen]. cbn [Reynolds std_providers].
  unfold std_Reynolds. rewrite fdiv_val by lra. cbn [andThen].
  rewrite fdiv_val by pos. cbn [andThen].
  rewrite fdiv_val by lra. cbn [andThen]. cbn [friction_factor std_providers].
  unfold std_friction_factor. rewrite fdiv_val by pos. reflexivity.
Qed.

(** Hagen-Poiseuille: the laminar drop is linear in the flow. *)
Lemma std_single_phase_drop flow rho mu D roughness L :
  0 < flow -> 0 < rho -> 0 < mu -> 0 < D ->
  @single_phase_drop std_providers flow rho mu D roughness L
  = Val (128 * mu * L * flow / (PI * rho * D ^ 4)).
Proof.
  intros Hf Hr Hm HD. unfold single_phase_drop.
  rewrite std_phase_friction by assumption. cbn [andThen].
  rewrite phase_dP_val by lra. apply f_equal.
  replace 0.5 with (/ 2) by lra.
  pose proof PI_RGT_0. field. repeat split; lra.
Qed.

Lemma std_Muller_Steinhagen_Heck m x rhol rhog mul mug D roughness L :
  0 < m -> x < 1 -> 0 < rhol -> 0 < rhog -> 0 < mul -> 0 < mug -> 0 < D ->
  @Muller_Steinhagen_Heck std_providers m x rhol rhog mul mug D roughness L
  = Val ((128 * mul * L * m / (PI * rhol * D ^ 4)
          + 2 * (128 * mug * L * m / (PI * rhog * D ^ 4)
                 - 128 * mul * L * m / (PI * rhol * D ^ 4)) * x)
         * Rpower (1 - x) (1 / 3)
         + 128 * mug * L * m / (PI * rhog * D ^ 4) * x ^ 3).
Proof.
  intros Hm Hx Hrl Hrg Hml Hmg HD.
  pose proof (@std_single_phase_drop m rhol mul D roughness L Hm Hrl Hml HD) as Sl.
  pose proof (@std_single_phase_drop m rhog mug D roughness L Hm Hrg Hmg HD) as Sg.
  unfold single_phase_drop in Sl, Sg. unfold Muller_Steinhagen_Heck.
  rewrite std_phase_friction in Sl by assumption.
  rewrite std_phase_friction in Sg by assumption.
  rewrite !std_phase_friction by assumption. cbn [andThen] in *.
  rewrite Sl. cbn [andThen]. rewrite Sg. cbn [andThen].
  rewrite fpow_pos by lra. reflexivity.
Qed.

Lemma cube_root_quarter : 1 / 2 < Rpower (1 - 3 / 4) (1 / 3).
Proof.
  replace (1 / 2) with (Rpower (1 / 8) (1 / 3)).
  - apply Rlt_Rpower_l; lra.
  - replace (1 / 8) with (Rpower (1 / 2) (INR 3)).
    + rewrite Rpower_mult. replace (INR 3 * (1 / 3)) with 1 by (simpl; lra).
      apply Rpower_1. lra.
    + rewrite Rpower_pow by lra. lra.
Qed.

(** ** Sign of the result *)

Lemma Chisholm_B_documented_pos Gamma G_tp :
  0 < Gamma -> 0 < G_tp -> 0 < Chisholm_B_documented Gamma G_tp.
Proof.
  intros HG Hg. unfold Chisholm_B_documented.
  assert (Hs : 0 < sqrt G_tp) by pos.
  repeat match goal with
         | |- context [Rle_dec ?a ?b] => destruct (Rle_dec a b)
         | |- context [Rlt_dec ?a ?b] => destruct (Rlt_dec a b)
         end; pos.
Qed.

Lemma Chisholm_phi2_nonneg Gamma B x :
  1 <= Gamma ^ 2 -> 0 <= B -> 0 <= x <= 1 ->
  exists phi, Chisholm_phi2 Gamma B 0.25 x = Val phi /\ 1 <= phi.
Proof.
  intros HG HB Hx. unfold Chisholm_phi2.
  destruct (@fpow_nonneg x ((2 - 0.25) / 2)) as (a & -> & Ha & _); [lra | lra |].
  destruct (@fpow_nonneg (1 - x) ((2 - 0.25) / 2)) as (b & -> & Hb & _);
    [lra | lra |].
  destruct (@fpow_nonneg x (2 - 0.25)) as (c & -> & Hc & _); [lra | lra |].
  cbn [andThen]. eexists. split; [reflexivity |].
  assert (0 <= B * a * b) by prod_nonneg.
  assert (0 <= (Gamma ^ 2 - 1) * (B * a * b + c)) by (apply Rmult_le_pos; lra).
  lra.
Qed.

Section Sign.

Context {P : Providers}.
Hypothesis Hff : friction_positive P.
Hypothesis HRe : Reynolds_positive P.

Variables m x rhol rhog mul mug D roughness L : R.
Hypothesis Hvalid : valid_input m x rhol rhog mul mug D roughness L.

Ltac with_phases :=
  destruct Hvalid as [Hm Hx Hrhol Hrhog Hmul Hmug HD Hrough HL];
  destruct (both_phases Hff HRe Hm Hrhol Hrhog Hmul Hmug HD Hrough HL)
    as (Re_lo & fd_lo & Re_go & fd_go & dP_lo & dP_go & El & Eg & Dl & Dg
        & Sl & Sg & HRl & Hfl & HRg & Hfg & Pl & Pg & Hratio).

Lemma Muller_Steinhagen_Heck_nonneg :
  drop_le (single_phase_drop m rhol mul D roughness L)
          (single_phase_drop m rhog mug D roughness L) ->
  holds (fun dP => 0 <= dP)
    (Muller_Steinhagen_Heck m x rhol rhog mul mug D roughness L).
Proof.
  intro Hle. with_phases.
  rewrite Sl, Sg in Hle. cbn in Hle.
  unfold Muller_Steinhagen_Heck. rewrite El. cbn [andThen].
  rewrite Dl, Eg. cbn [andThen]. rewrite Dg. cbn [andThen].
  destruct (@fpow_nonneg (1 - x) (1 / 3)) as (c & -> & Hc & _); [lra | lra |].
  cbn [andThen holds].
  assert (0 <= dP_lo + 2 * (dP_go - dP_lo) * x) by nra.
  assert (0 <= x ^ 3) by (apply pow_le; lra).
  assert (0 <= (dP_lo + 2 * (dP_go - dP_lo) * x) * c) by (apply Rmult_le_pos; lra).
  assert (0 <= dP_go * x ^ 3) by (apply Rmult_le_pos; lra).
  lra.
Qed.

Lemma Gamma_sq_ge_1 dP_lo dP_go :
  0 < dP_lo -> dP_lo <= dP_go -> 1 <= sqrt (dP_go / dP_lo) ^ 2.
Proof.
  intros Hl Hle.
  assert (Hr : 1 <= dP_go / dP_lo).
  { apply Rmult_le_reg_r with dP_lo; [assumption |].
    unfold Rdiv. rewrite Rmult_assoc, Rinv_l by lra. lra. }
  simpl. rewrite Rmult_1_r, sqrt_sqrt; lra.
Qed.

Lemma Chisholm_nonneg :
  drop_le (single_phase_drop m rhol mul D roughness L)
          (single_phase_drop m rhog mug D roughness L) ->
  holds (fun dP => 0 <= dP)
    (Chisholm m x rhol rhog mul mug D roughness L false).
Proof.
  intro Hle.
  destruct Hvalid as [Hm Hx Hrhol Hrhog Hmul Hmug HD Hrough HL].
  destruct (Chisholm_unfolded Hff HRe Hm Hrhol Hrhog Hmul Hmug HD Hrough HL x)
    as (dP_lo & dP_go & Sl & Sg & Pl & Pg & E).
  rewrite Sl, Sg in Hle. cbn in Hle. rewrite E.
  assert (Hr : 0 < dP_go / dP_lo) by pos.
  destruct (@Chisholm_phi2_nonneg (sqrt (dP_go / dP_lo))
              (Chisholm_B_documented (sqrt (dP_go / dP_lo))
                 (m / (PI / 4 * D ^ 2))) x) as (phi & -> & Hphi).
  - now apply Gamma_sq_ge_1.
  - left. apply Chisholm_B_documented_pos; pos.
  - assumption.
  - cbn [andThen holds]. apply Rmult_le_pos; lra.
Qed.

Lemma Baroczy_Chisholm_nonneg :
  drop_le (single_phase_drop m rhol mul D roughness L)
          (single_phase_drop m rhog mug D roughness L) ->
  holds (fun dP => 0 <= dP)
    (Baroczy_Chisholm m x rhol rhog mul mug D roughness L).
Proof.
  intro Hle.
  destruct Hvalid as [Hm Hx Hrhol Hrhog Hmul Hmug HD Hrough HL].
  destruct (Baroczy_unfolded Hff HRe Hm Hrhol Hrhog Hmul Hmug HD Hrough HL x)
    as (dP_lo & dP_go & B & Sl & Sg & Pl & Pg & HB & E).
  rewrite Sl, Sg in Hle. cbn in Hle. rewrite E.
  destruct (@Chisholm_phi2_nonneg (sqrt (dP_go / dP_lo)) B x)
    as (phi & -> & Hphi).
  - now apply Gamma_sq_ge_1.
  - lra.
  - assumption.
  - cbn [andThen holds]. apply Rmult_le_pos; lra.
Qed.

Lemma Tran_nonneg sigma :
  drop_le (single_phase_drop m rhol mul D roughness L)
          (single_phase_drop m rhog mug D roughness L) ->
  Confinement_nonneg D rhol rhog sigma ->
  holds (fun dP => 0 <= dP) (Tran m x rhol rhog mul mug sigma D roughness L).
Proof.
  unfold Confinement_nonneg. intros Hle HCo. with_phases.
  rewrite Sl, Sg in Hle. cbn in Hle.
  destruct (holds_Val _ _ HCo) as (Co & ECo & HCop).
  unfold Tran. rewrite El. cbn [andThen].
  rewrite Dl, Eg. cbn [andThen]. rewrite Dg. cbn [andThen].
  rewrite fdiv_val by lra. cbn [andThen]. rewrite ECo. cbn [andThen].
  destruct (@fpow_nonneg x 0.875) as (a & -> & Ha & _); [lra | lra |].
  destruct (@fpow_nonneg (1 - x) 0.875) as (b & -> & Hb & _); [lra | lra |].
  destruct (@fpow_nonneg x 1.75) as (c & -> & Hc & _); [lra | lra |].
  cbn [andThen holds].
  assert (Hr : 1 <= dP_go / dP_lo).
  { apply Rmult_le_reg_r with dP_lo; [assumption |].
    unfold Rdiv. rewrite Rmult_assoc, Rinv_l by lra. lra. }
  assert (0 <= Co * a * b) by prod_nonneg.
  assert (0 <= (4.3 * (dP_go / dP_lo) - 1) * (Co * a * b + c))
    by (apply Rmult_le_pos; lra).
  apply Rmult_le_pos; lra.
Qed.

Lemma Friedel_nonneg sigma :
  0 < sigma -> mug <= mul ->
  holds (fun a => 0 <= a <= 1) (homogeneous x rhol rhog) ->
  Froude_positive P -> Weber_positive P ->
  holds (fun dP => 0 <= dP)
    (Friedel m x rhol rhog mul mug sigma D roughness L).
Proof.
  intros Hsig Hvis Hhom HFr HWe.
  destruct Hvalid as [Hm Hx Hrhol Hrhog Hmul Hmug HD Hrough HL].
  destruct (Friedel_unfolded Hff HRe Hm Hrhol Hrhog Hmul Hmug HD Hrough HL
              Hx Hsig Hvis Hhom HFr HWe)
    as (fd_lo & fd_go & dP_lo & dP_go & F & H & d & Sl & Sg & Pl & Pg & Hfl
        & Hfg & Hratio & EF & HF & HH & Hd & ->).
  cbn [holds].
  assert (0 <= (1 - x) ^ 2) by (apply pow_le; lra).
  assert (0 <= x ^ 2) by (apply pow_le; lra).
  assert (0 < rhol * fd_go / (rhog * fd_lo)) by pos.
  assert (0 <= x ^ 2 * (rhol * fd_go / (rhog * fd_lo)))
    by (apply Rmult_le_pos; lra).
  assert (0 <= 3.24 * F * H / d).
  { apply Rmult_le_pos; [| left; now apply Rinv_0_lt_compat].
    prod_nonneg. }
  apply Rmult_le_pos; lra.
Qed.

Lemma Lombardi_Pedrocchi_nonneg sigma :
  0 < sigma ->
  holds (fun a => 0 <= a <= 1) (homogeneous x rhol rhog) ->
  holds (fun dP => 0 <= dP) (Lombardi_Pedrocchi m x rhol rhog sigma D L).
Proof.
  intros Hsig Hhom.
  destruct Hvalid as [Hm Hx Hrhol Hrhog Hmul Hmug HD Hrough HL].
  destruct (holds_Val _ _ Hhom) as (al & Eal & Hal).
  unfold Lombardi_Pedrocchi, rho_homogeneous. rewrite Eal. cbn [andThen].
  assert (Hrho : 0 < rhol * (1 - al) + rhog * al) by nra.
  rewrite fdiv_val by pos. cbn [andThen].
  rewrite fpow_pos by pos. cbn [andThen].
  rewrite fpow_pos by pos. cbn [andThen].
  rewrite fpow_pos by pos. cbn [andThen].
  rewrite fpow_pos by pos. cbn [andThen].
  rewrite fdiv_val by (apply Rgt_not_eq; apply Rmult_lt_0_compat; pos).
  cbn [holds]. left. pos.
Qed.

Lemma Zhang_Webb_nonneg Pres Pc :
  0 < Pres -> 0 < Pc ->
  holds (fun dP => 0 <= dP) (Zhang_Webb m x rhol mul Pres Pc D roughness L).
Proof.
  intros HP HPc. with_phases.
  unfold Zhang_Webb. rewrite El. cbn [andThen]. rewrite Dl. cbn [andThen].
  rewrite fdiv_val by lra. cbn [andThen].
  assert (HPr : 0 < Pres / Pc) by pos.
  rewrite fdiv_val by lra. cbn [andThen].
  destruct (@fpow_nonneg x 0.8) as (a & -> & Ha & _); [lra | lra |].
  destruct (@fpow_nonneg (1 - x) 0.25) as (b & -> & Hb & _); [lra | lra |].
  cbn [andThen]. rewrite fpow_pos by assumption. cbn [andThen holds].
  assert (0 < Rpower (Pres / Pc) (-1.64)) by pos.
  assert (0 <= (1 - x) ^ 2) by (apply pow_le; lra).
  assert (0 <= x ^ 2) by (apply pow_le; lra).
  assert (0 <= 2.87 * x ^ 2 / (Pres / Pc)).
  { apply Rmult_le_pos; [lra |]. left. now apply Rinv_0_lt_compat. }
  assert (0 <= 1.68 * a * b * Rpower (Pres / Pc) (-1.64))
    by prod_nonneg.
  apply Rmult_le_pos; lra.
Qed.

Lemma Jung_Radermacher_nonneg :
  holds (fun Xtt => 0 < Xtt) (Lockhart_Martinelli_Xtt x rhol rhog mul mug) ->
  holds (fun dP => 0 <= dP)
    (Jung_Radermacher m x rhol rhog mul mug D roughness L).
Proof.
  intro HX. with_phases.
  destruct (holds_Val _ _ HX) as (Xtt & EX & HXp).
  unfold Jung_Radermacher. rewrite El. cbn [andThen]. rewrite Dl. cbn [andThen].
  rewrite EX. cbn [andThen]. rewrite fpow_pos by assumption. cbn [andThen].
  destruct (@fpow_nonneg (1 - x) 1.8) as (b & -> & Hb & _); [lra | lra |].
  cbn [andThen holds].
  assert (0 < Rpower Xtt (-1.47)) by pos.
  assert (0 <= 12.82 * Rpower Xtt (-1.47) * b)
    by prod_nonneg.
  apply Rmult_le_pos; lra.
Qed.

End Sign.

(** ** Doubling the mass flow *)

Lemma Rpower_2_ge_1 e : 0 < e -> 1 < Rpower 2 e.
Proof.
  intro He. rewrite <- (Rpower_O 2) by lra. apply Rpower_lt; lra.
Qed.

Section Doubling.

Context {P : Providers}.

Lemma single_phase_drop_inv flow rho mu D roughness L d :
  single_phase_drop flow rho mu D roughness L = Val d ->
  exists v Re fd,
    phase_friction flow rho mu D roughness = Val (v, Re, fd)
    /\ phase_dP fd L D rho v = Val d.
Proof.
  unfold single_phase_drop.
  destruct (phase_friction flow rho mu D roughness) as [[[v Re] fd] | e];
    cbn [andThen]; [| discriminate].
  intro H. eauto.
Qed.

Lemma Lombardi_Pedrocchi_doubling m x rhol rhog sigma D L :
  0 < m -> 0 < rhol -> 0 < rhog -> 0 < sigma -> 0 < D -> 0 < L ->
  holds (fun a => 0 <= a <= 1) (homogeneous x rhol rhog) ->
  drop_le (Lombardi_Pedrocchi m x rhol rhog sigma D L)
          (Lombardi_Pedrocchi (2 * m) x rhol rhog sigma D L).
Proof.
  intros Hm Hrl Hrg Hsig HD HL Hhom.
  destruct (holds_Val _ _ Hhom) as (al & Eal & Hal).
  unfold Lombardi_Pedrocchi, rho_homogeneous. rewrite Eal. cbn [andThen].
  assert (Hrho : 0 < rhol * (1 - al) + rhog * al) by nra.
  rewrite !fdiv_val by pos. cbn [andThen].
  rewrite !(@fpow_pos (m / (PI / 4 * D ^ 2))),
          !(@fpow_pos (2 * m / (PI / 4 * D ^ 2))) by pos.
  cbn [andThen].
  rewrite !(@fpow_pos sigma) by pos. cbn [andThen].
  rewrite !(@fpow_pos D) by pos. cbn [andThen].
  rewrite !fpow_pos by pos. cbn [andThen].
  rewrite !fdiv_val by (apply Rgt_not_eq; apply Rmult_lt_0_compat; pos).
  cbn [drop_le].
  set (G := m / (PI / 4 * D ^ 2)).
  assert (HG : 0 < G) by (unfold G; pos).
  replace (2 * m / (PI / 4 * D ^ 2)) with (2 * G) by (unfold G, Rdiv; ring).
  rewrite <- (@Rpower_mult_distr 2 G) by lra.
  pose proof (@Rpower_2_ge_1 1.4 ltac:(lra)) as H2.
  set (den := Rpower D 1.2 * Rpower (rhol * (1 - al) + rhog * al) 0.866).
  assert (Hden : 0 < den) by (unfold den; apply Rmult_lt_0_compat; pos).
  set (num := 0.83 * Rpower G 1.4 * Rpower sigma 0.4 * L).
  assert (Hnum : 0 < num) by (unfold num; pos).
  replace (0.83 * (Rpower 2 1.4 * Rpower G 1.4) * Rpower sigma 0.4 * L / den)
    with (Rpower 2 1.4 * (num / den)) by (unfold num, Rdiv; ring).
  assert (0 < num / den) by pos. nra.
Qed.

(** A correlation of the form [phi * dP_lo], with a non-negative multiplier
    [phi] that does not depend on the mass flow, follows the liquid-only
    drop. *)
Lemma Zhang_Webb_doubling m x rhol mul Pres Pc D roughness L :
  0 <= x <= 1 -> 0 < Pres -> 0 < Pc ->
  drop_le (single_phase_drop m rhol mul D roughness L)
          (single_phase_drop (2 * m) rhol mul D roughness L) ->
  drop_le (Zhang_Webb m x rhol mul Pres Pc D roughness L)
          (Zhang_Webb (2 * m) x rhol mul Pres Pc D roughness L).
Proof.
  intros Hx HP HPc Hle.
  destruct (single_phase_drop m rhol mul D roughness L) as [d1 | ] eqn:S1;
    [| contradiction].
  destruct (single_phase_drop (2 * m) rhol mul D roughness L) as [d2 | ] eqn:S2;
    [| contradiction].
  cbn in Hle.
  destruct (single_phase_drop_inv _ _ _ _ _ _ S1) as (v1 & R1 & f1 & E1 & D1).
  destruct (single_phase_drop_inv _ _ _ _ _ _ S2) as (v2 & R2 & f2 & E2 & D2).
  unfold Zhang_Webb. rewrite E1, E2. cbn [andThen]. rewrite D1, D2.
  cbn [andThen].
  assert (HPr : 0 < Pres / Pc) by pos.
  rewrite !fdiv_val by lra. cbn [andThen].
  rewrite !fdiv_val by lra. cbn [andThen].
  destruct (@fpow_nonneg x 0.8) as (a & -> & Ha & _); [lra | lra |].
  destruct (@fpow_nonneg (1 - x) 0.25) as (b & -> & Hb & _); [lra | lra |].
  cbn [andThen]. rewrite fpow_pos by assumption. cbn [andThen drop_le].
  assert (0 < Rpower (Pres / Pc) (-1.64)) by pos.
  assert (0 <= (1 - x) ^ 2) by (apply pow_le; lra).
  assert (0 <= x ^ 2) by (apply pow_le; lra).
  assert (0 <= 2.87 * x ^ 2 / (Pres / Pc)).
  { apply Rmult_le_pos; [lra |]. left. now apply Rinv_0_lt_compat. }
  assert (0 <= 1.68 * a * b * Rpower (Pres / Pc) (-1.64)) by prod_nonneg.
  apply Rmult_le_compat_r; lra.
Qed.

Lemma Jung_Radermacher_doubling m x rhol rhog mul mug D roughness L :
  0 <= x <= 1 ->
  holds (fun Xtt => 0 < Xtt) (Lockhart_Martinelli_Xtt x rhol rhog mul mug) ->
  drop_le (single_phase_drop m rhol mul D roughness L)
          (single_phase_drop (2 * m) rhol mul D roughness L) ->
  drop_le (Jung_Radermacher m x rhol rhog mul mug D roughness L)
          (Jung_Radermacher (2 * m) x rhol rhog mul mug D roughness L).
Proof.
  intros Hx HX Hle.
  destruct (single_phase_drop m rhol mul D roughness L) as [d1 | ] eqn:S1;
    [| contradiction].
  destruct (single_phase_drop (2 * m) rhol mul D roughness L) as [d2 | ] eqn:S2;
    [| contradiction].
  cbn in Hle.
  destruct (single_phase_drop_inv _ _ _ _ _ _ S1) as (v1 & R1 & f1 & E1 & D1).
  destruct (single_phase_drop_inv _ _ _ _ _ _ S2) as (v2 & R2 & f2 & E2 & D2).
  destruct (holds_Val _ _ HX) as (Xtt & EX & HXp).
  unfold Jung_Radermacher. rewrite E1, E2. cbn [andThen]. rewrite D1, D2.
  cbn [andThen]. rewrite EX. cbn [andThen].
  rewrite fpow_pos by assumption. cbn [andThen].
  destruct (@fpow_nonneg (1 - x) 1.8) as (b & -> & Hb & _); [lra | lra |].
  cbn [andThen drop_le].
  assert (0 < Rpower Xtt (-1.47)) by pos.
  assert (0 <= 12.82 * Rpower Xtt (-1.47) * b) by prod_nonneg.
  apply Rmult_le_compat_l; lra.
Qed.

End Doubling.

(** ** The factor of Chen_Friedel *)

Section Omega.

Context {P : Providers}.

Lemma Chen_Omega_with_low c m x rhog mug D Re_lo We Bo :
  Reynolds_positive P ->
  0 < m -> 0 < x -> 0 < rhog -> 0 < mug -> 0 < D -> 0 < Re_lo -> 0 <= c ->
  Bo < 2.5 ->
  exists Re_g,
    Reynolds (m * x / rhog / (PI / 4 * D ^ 2)) rhog mug D = Val Re_g
    /\ 0 < Re_g
    /\ Chen_Omega_with c m x rhog mug D Re_lo We Bo
       = Val (0.0333 * Rpower Re_lo 0.45
              / (Rpower Re_g 0.09 * (1 + c * exp (- Bo)))).
Proof.
  intros HRe Hm Hx Hrg Hmg HD HRl Hc HBo. unfold Chen_Omega_with.
  destruct (Rlt_dec Bo 2.5); [| contradiction].
  rewrite phase_velocity_val by lra. cbn [andThen].
  assert (Hv : 0 < m * x / rhog / (PI / 4 * D ^ 2)) by pos.
  destruct (holds_Val _ _ (HRe _ rhog mug D Hv Hrg Hmg HD)) as (Re_g & E & HRg).
  exists Re_g. rewrite E. cbn [andThen]. rewrite !fpow_pos by assumption.
  cbn [andThen]. pose proof (exp_pos (- Bo)).
  assert (0 < 1 + c * exp (- Bo)) by nra.
  rewrite fdiv_val by (apply Rgt_not_eq; apply Rmult_lt_0_compat; pos).
  auto.
Qed.

Lemma Chen_Omega_with_high c m x rhog mug D Re_lo We Bo :
  0 < We -> 2.5 <= Bo ->
  Chen_Omega_with c m x rhog mug D Re_lo We Bo
  = Val (Rpower We 0.2 / (2.5 + 0.06 * Bo)).
Proof.
  intros HWe HBo. unfold Chen_Omega_with.
  destruct (Rlt_dec Bo 2.5); [lra |].
  rewrite fpow_pos by assumption. cbn [andThen].
  now rewrite fdiv_val by lra.
Qed.

(** With two different coefficients the low-Bond factor takes two
    different values. *)
Lemma low_Bond_factor_differs a b Bo c1 c2 :
  0 < a -> 0 < b -> 0 <= c1 -> 0 <= c2 -> c1 <> c2 ->
  0.0333 * a / (b * (1 + c1 * exp (- Bo)))
  <> 0.0333 * a / (b * (1 + c2 * exp (- Bo))).
Proof.
  intros Ha Hb H1 H2 Hne Heq. pose proof (exp_pos (- Bo)) as He.
  assert (Hd1 : 0 < 1 + c1 * exp (- Bo)) by nra.
  assert (Hd2 : 0 < 1 + c2 * exp (- Bo)) by nra.
  assert (Hn : 0 < 0.0333 * a) by pos.
  assert (Hx : b * (1 + c1 * exp (- Bo)) = b * (1 + c2 * exp (- Bo))).
  { apply Rinv_eq_reg.
    apply Rmult_eq_reg_l with (0.0333 * a); [exact Heq | lra]. }
  apply Rmult_eq_reg_l in Hx; [| lra].
  assert (Hc : c1 * exp (- Bo) = c2 * exp (- Bo)) by lra.
  apply Rmult_eq_reg_r in Hc; [contradiction | lra].
Qed.

End Omega.

Lemma Chen_Friedel_nonneg {P : Providers}
    m x rhol rhog mul mug sigma D roughness L :
  friction_positive P -> Reynolds_positive P ->
  Froude_positive P -> Weber_positive P ->
  valid_input m x rhol rhog mul mug D roughness L ->
  0 < x -> 0 < sigma -> mug <= mul ->
  holds (fun _ => True) (Bond rhol rhog sigma D) ->
  holds (fun dP => 0 <= dP)
    (Chen_Friedel m x rhol rhog mul mug sigma D roughness L).
Proof.
  intros Hff HRe HFr HWe Hvalid Hx0 Hsig Hvis HBond.
  pose proof Hvalid as [Hm Hx Hrhol Hrhog Hmul Hmug HD Hrough HL].
  change (@Chen_Friedel P m x rhol rhog mul mug sigma D roughness L)
    with (@Chen_Friedel (with_homogeneous_model P)
            m x rhol rhog mul mug sigma D roughness L).
  rewrite Chen_Friedel_factor
    by (apply rho_homogeneous_direct; auto).
  destruct (@homogeneous_model_val x rhol rhog Hx Hrhol Hrhog) as (Eh & Hh).
  assert (HF : holds (fun dP => 0 <= dP)
                 (@Friedel (with_homogeneous_model P)
                    m x rhol rhog mul mug sigma D roughness L)).
  { apply Friedel_nonneg; auto.
    cbn [homogeneous with_homogeneous_model]. now rewrite Eh. }
  destruct (holds_Val _ _ HF) as (dP & -> & HdP). cbn [andThen].
  unfold Chen_factor.
  destruct (@phase_friction_ok (with_homogeneous_model P) m rhol mul D roughness
              Hff HRe Hm Hrhol Hmul HD Hrough) as (Re_lo & fd_lo & -> & HRl & _).
  cbn [andThen].
  destruct (@rho_h_direct_val x rhol rhog Hx Hrhol Hrhog) as (Hs & ->).
  cbn [andThen].
  set (rho_h := 1 / (x / rhog + (1 - x) / rhol)).
  assert (Hrho : 0 < rho_h) by (unfold rho_h; pos).
  rewrite fdiv_val by lra. cbn [andThen].
  rewrite fdiv_val by pos. cbn [andThen].
  assert (Hvh : 0 < m / rho_h / (PI / 4 * D ^ 2)) by pos.
  cbn [Weber Bond with_homogeneous_model].
  destruct (holds_Val _ _ (HWe _ D rho_h sigma Hvh HD Hrho Hsig))
    as (We & -> & HWep).
  cbn [andThen].
  destruct (holds_Val _ _ HBond) as (Bo4 & -> & _). cbn [andThen].
  rewrite fdiv_val by lra. cbn [andThen].
  unfold Chen_Omega.
  destruct (Rlt_le_dec (Bo4 / 4) 2.5) as [Hlow | Hhigh].
  - destruct (@Chen_Omega_with_low (with_homogeneous_model P) 0.5 m x rhog mug D
                Re_lo We (Bo4 / 4))
      as (Re_g & _ & HRg & ->); auto; [lra |].
    cbn [andThen holds]. pose proof (exp_pos (- (Bo4 / 4))).
    apply Rmult_le_pos; [assumption |]. left. pos.
  - rewrite Chen_Omega_with_high by assumption.
    cbn [andThen holds]. apply Rmult_le_pos; [assumption |]. left. pos.
Qed.

(** ** Friedel and Chen_Friedel with a gas more viscous than the liquid *)

Ltac run_no_value :=
  lazymatch goal with
  | |- andThen ?c _ <> Val _ =>
      let h := head_of c in
      lazymatch h with
      | Friedel_H _ _ _ _ => fail
      | _ => destruct h; cbn [andThen]; [split_tuples | discriminate]
      end
  end.

Lemma Friedel_no_value {P : Providers}
    m x rhol rhog mul mug sigma D roughness L v :
  Friedel_H rhol rhog mul mug = Raise ValueError ->
  Friedel m x rhol rhog mul mug sigma D roughness L <> Val v.
Proof.
  intro HH. unfold Friedel. repeat run_no_value.
  rewrite HH. cbn [andThen]. discriminate.
Qed.

Lemma Chen_Friedel_no_value {P : Providers}
    m x rhol rhog mul mug sigma D roughness L v :
  Friedel_H rhol rhog mul mug = Raise ValueError ->
  Chen_Friedel m x rhol rhog mul mug sigma D roughness L <> Val v.
Proof.
  intro HH. unfold Chen_Friedel. repeat run_no_value.
  rewrite HH. cbn [andThen]. discriminate.
Qed.

Lemma Chisholm_B_cases Gamma G_tp :
  0 < Gamma -> 0 < G_tp ->
  (Gamma <= 9.5 -> G_tp <= 500 -> Chisholm_B Gamma G_tp = Val 4.8)
  /\ (Gamma <= 9.5 -> 500 < G_tp < 1900 ->
      Chisholm_B Gamma G_tp = Val (2400 / G_tp))
  /\ (Gamma <= 9.5 -> 1900 <= G_tp ->
      Chisholm_B Gamma G_tp = Val (55 / sqrt G_tp))
  /\ (9.5 < Gamma <= 28 -> G_tp <= 600 ->
      Chisholm_B Gamma G_tp = Val (520 / (Gamma * sqrt G_tp)))
  /\ (9.5 < Gamma <= 28 -> 600 < G_tp ->
      Chisholm_B Gamma G_tp = Val (21 / Gamma))
  /\ (28 < Gamma ->
      Chisholm_B Gamma G_tp = Val (15000 / (Gamma ^ 2 * sqrt G_tp))).
Proof.
  intros HG Hg. rewrite Chisholm_B_table by assumption.
  unfold Chisholm_B_documented.
  repeat split; intros;
    repeat match goal with
           | |- context [Rle_dec ?a ?b] => destruct (Rle_dec a b)
           | |- context [Rlt_dec ?a ?b] => destruct (Rlt_dec a b)
           end; try reflexivity; lra.
Qed.

(* ------------------------------------------------------------------ *)
(** * The claims *)

(** C1.  In Chen_Friedel the factor Omega is [We^0.2 / (2.5 + 0.06*Bo)]
    when the quartered Bond number [Bo] is at least 2.5.  When [Bo < 2.5] it
    is [0.0333 * Re_lo^0.45 / (Re_g^0.09 * (1 + c*exp(-Bo)))] with [Re_g] the
    Reynolds number of the actual gas flow [m*x]; the code takes [c = 0.5]
    where the docstring states [c = 0.4], and the two factors differ. *)
Theorem Chen_Omega_coefficient {P : Providers} m x rhog mug D Re_lo We Bo :
  Reynolds_positive P ->
  0 < m -> 0 < x -> 0 < rhog -> 0 < mug -> 0 < D -> 0 < Re_lo -> 0 < We ->
  (2.5 <= Bo ->
   Chen_Omega m x rhog mug D Re_lo We Bo
   = Val (Rpower We 0.2 / (2.5 + 0.06 * Bo)))
  /\ (Bo < 2.5 ->
      exists Re_g,
        Reynolds (m * x / rhog / (PI / 4 * D ^ 2)) rhog mug D = Val Re_g
        /\ Chen_Omega m x rhog mug D Re_lo We Bo
           = Val (0.0333 * Rpower Re_lo 0.45
                  / (Rpower Re_g 0.09 * (1 + 0.5 * exp (- Bo))))
        /\ Chen_Omega_documented m x rhog mug D Re_lo We Bo
           = Val (0.0333 * Rpower Re_lo 0.45
                  / (Rpower Re_g 0.09 * (1 + 0.4 * exp (- Bo))))
        /\ Chen_Omega m x rhog mug D Re_lo We Bo
           <> Chen_Omega_documented m x rhog mug D Re_lo We Bo).
Proof.
  intros HRe Hm Hx Hrg Hmg HD HRl HWe. split.
  - intro HBo. now apply Chen_Omega_with_high.
  - intro HBo.
    destruct (@Chen_Omega_with_low P 0.5 m x rhog mug D Re_lo We Bo)
      as (Re_g & E & HRg & E5); auto; [lra |].
    destruct (@Chen_Omega_with_low P 0.4 m x rhog mug D Re_lo We Bo)
      as (Re_g' & E' & _ & E4); auto; [lra |].
    rewrite E in E'. injection E' as <-.
    exists Re_g. unfold Chen_Omega, Chen_Omega_documented.
    rewrite E5, E4. repeat split; auto.
    intro Heq. injection Heq as Heq. revert Heq.
    apply low_Bond_factor_differs; try lra; pos.
Qed.

(** C1, at the example of the docstring of Chen_Friedel (m = 0.0005,
    x = 0.9, rhog = 1.4, mug = 1e-5, D = 0.003, Bo = 1.0465). *)
Lemma Chen_Omega_coefficient_witness :
  exists Re_g,
    @Reynolds std_providers (0.0005 * 0.9 / 1.4 / (PI / 4 * 0.003 ^ 2))
      1.4 0.00001 0.003 = Val Re_g
    /\ @Chen_Omega std_providers 0.0005 0.9 1.4 0.00001 0.003 212 1 1.0465
       = Val (0.0333 * Rpower 212 0.45
              / (Rpower Re_g 0.09 * (1 + 0.5 * exp (- (1.0465)))))
    /\ @Chen_Omega_documented std_providers 0.0005 0.9 1.4 0.00001 0.003 212 1
         1.0465
       = Val (0.0333 * Rpower 212 0.45
              / (Rpower Re_g 0.09 * (1 + 0.4 * exp (- (1.0465)))))
    /\ @Chen_Omega std_providers 0.0005 0.9 1.4 0.00001 0.003 212 1 1.0465
       <> @Chen_Omega_documented std_providers 0.0005 0.9 1.4 0.00001 0.003
            212 1 1.0465.
Proof.
  apply (proj2 (@Chen_Omega_coefficient std_providers
                  0.0005 0.9 1.4 0.00001 0.003 212 1 1.0465
                  std_Reynolds_positive ltac:(lra) ltac:(lra) ltac:(lra)
                  ltac:(lra) ltac:(lra) ltac:(lra) ltac:(lra))).
  lra.
Defined.

(** C2.  Chisholm without the roughness correction computes
    [Gamma = sqrt(dP_go/dP_lo)] and [G_tp = m/(pi/4*D^2)] and selects [B] by
    the documented table, with the documented closed and open bounds:
    for [Gamma <= 9.5], 4.8 when [G_tp <= 500], [2400/G_tp] when
    [500 < G_tp < 1900], [55/sqrt(G_tp)] otherwise; for [9.5 < Gamma <= 28],
    [520/(Gamma*sqrt(G_tp))] when [G_tp <= 600], [21/Gamma] otherwise; for
    [Gamma > 28], [15000/(Gamma^2*sqrt(G_tp))]. *)
Theorem Chisholm_B_selection {P : Providers}
    m x rhol rhog mul mug D roughness L :
  friction_positive P -> Reynolds_positive P ->
  valid_input m x rhol rhog mul mug D roughness L ->
  exists dP_lo dP_go B,
    single_phase_drop m rhol mul D roughness L = Val dP_lo
    /\ single_phase_drop m rhog mug D roughness L = Val dP_go
    /\ let Gamma := sqrt (dP_go / dP_lo) in
       let G_tp := m / (PI / 4 * D ^ 2) in
       Chisholm_B Gamma G_tp = Val B
       /\ Chisholm m x rhol rhog mul mug D roughness L false
          = (let! phi2 := Chisholm_phi2 Gamma B 0.25 x in Val (phi2 * dP_lo))
       /\ (Gamma <= 9.5 -> G_tp <= 500 -> B = 4.8)
       /\ (Gamma <= 9.5 -> 500 < G_tp < 1900 -> B = 2400 / G_tp)
       /\ (Gamma <= 9.5 -> 1900 <= G_tp -> B = 55 / sqrt G_tp)
       /\ (9.5 < Gamma <= 28 -> G_tp <= 600 -> B = 520 / (Gamma * sqrt G_tp))
       /\ (9.5 < Gamma <= 28 -> 600 < G_tp -> B = 21 / Gamma)
       /\ (28 < Gamma -> B = 15000 / (Gamma ^ 2 * sqrt G_tp)).
Proof.
  intros Hff HRe [Hm Hx Hrl Hrg Hml Hmg HD Hro HL].
  destruct (Chisholm_unfolded Hff HRe Hm Hrl Hrg Hml Hmg HD Hro HL x)
    as (dP_lo & dP_go & Sl & Sg & Pl & Pg & E).
  exists dP_lo, dP_go,
    (Chisholm_B_documented (sqrt (dP_go / dP_lo)) (m / (PI / 4 * D ^ 2))).
  split; [assumption |]. split; [assumption |]. cbv zeta.
  assert (HG : 0 < sqrt (dP_go / dP_lo)) by pos.
  assert (Hg : 0 < m / (PI / 4 * D ^ 2)) by pos.
  destruct (@Chisholm_B_cases _ _ HG Hg) as (C1 & C2 & C3 & C4 & C5 & C6).
  rewrite Chisholm_B_table in * by assumption.
  split; [reflexivity |]. split; [assumption |].
  repeat split; intros;
    match goal with
    | Hc : _ -> _ -> Val _ = Val _ |- _ =>
        solve [injection Hc; auto]
    | Hc : _ -> Val _ = Val _ |- _ =>
        solve [injection Hc; auto]
    end.
Qed.

(** C2, at m = 1, x = 1/2, rhol = 2, rhog = 1, mul = 2, mug = 1, D = 1,
    smooth pipe of length 1, laminar friction. *)
Lemma Chisholm_B_selection_witness :
  exists dP_lo dP_go B,
    @single_phase_drop std_providers 1 2 2 1 0 1 = Val dP_lo
    /\ @single_phase_drop std_providers 1 1 1 1 0 1 = Val dP_go
    /\ let Gamma := sqrt (dP_go / dP_lo) in
       let G_tp := 1 / (PI / 4 * 1 ^ 2) in
       Chisholm_B Gamma G_tp = Val B
       /\ @Chisholm std_providers 1 (1 / 2) 2 1 2 1 1 0 1 false
          = (let! phi2 := Chisholm_phi2 Gamma B 0.25 (1 / 2) in
             Val (phi2 * dP_lo))
       /\ (Gamma <= 9.5 -> G_tp <= 500 -> B = 4.8)
       /\ (Gamma <= 9.5 -> 500 < G_tp < 1900 -> B = 2400 / G_tp)
       /\ (Gamma <= 9.5 -> 1900 <= G_tp -> B = 55 / sqrt G_tp)
       /\ (9.5 < Gamma <= 28 -> G_tp <= 600 -> B = 520 / (Gamma * sqrt G_tp))
       /\ (9.5 < Gamma <= 28 -> 600 < G_tp -> B = 21 / Gamma)
       /\ (28 < Gamma -> B = 15000 / (Gamma ^ 2 * sqrt G_tp)).
Proof.
  apply (@Chisholm_B_selection std_providers 1 (1 / 2) 2 1 2 1 1 0 1
           std_friction_positive std_Reynolds_positive).
  constructor; lra.
Defined.

(** The table at its bounds: both 9.5 and 28 belong to the lower band of
    [Gamma]; 500 and 600 belong to the lower band of [G_tp], 1900 to the
    upper one. *)
Example Chisholm_B_at_bounds :
  Chisholm_B 9.5 500 = Val 4.8
  /\ Chisholm_B 9.5 1900 = Val (55 / sqrt 1900)
  /\ Chisholm_B 28 600 = Val (520 / (28 * sqrt 600))
  /\ Chisholm_B 9.5 600 = Val (2400 / 600).
Proof.
  assert (H95 : 0 < 9.5) by lra. assert (H28 : 0 < 28) by lra.
  destruct (@Chisholm_B_cases 9.5 500 H95 ltac:(lra)) as (A & _).
  destruct (@Chisholm_B_cases 9.5 1900 H95 ltac:(lra)) as (_ & _ & B & _).
  destruct (@Chisholm_B_cases 28 600 H28 ltac:(lra)) as (_ & _ & _ & C & _).
  destruct (@Chisholm_B_cases 9.5 600 H95 ltac:(lra)) as (_ & D & _).
  repeat split; [apply A | apply B | apply C | apply D]; lra.
Qed.






(** Laminar flow of a viscous liquid with a thin gas: the result of
    Muller_Steinhagen_Heck is negative, and doubles with the mass flow. *)
Lemma std_Muller_Steinhagen_Heck_viscous_liquid :
  exists dP,
    @Muller_Steinhagen_Heck std_providers
      (1 / 2000) (3 / 4) 1000 1 1 (1 / 100000) (1 / 10) 0 1
    = Val dP
    /\ @Muller_Steinhagen_Heck std_providers
         (2 * (1 / 2000)) (3 / 4) 1000 1 1 (1 / 100000) (1 / 10) 0 1
       = Val (2 * dP)
    /\ dP < 0.
Proof.
  rewrite !std_Muller_Steinhagen_Heck by lra.
  eexists. split; [reflexivity |].
  pose proof cube_root_quarter as Hc. pose proof PI_RGT_0 as Hpi.
  set (c := Rpower (1 - 3 / 4) (1 / 3)) in *.
  set (dg := 128 * (1 / 100000) * 1 * (1 / 2000) / (PI * 1 * (1 / 10) ^ 4)).
  assert (Hdg : 0 < dg) by (unfold dg; pos).
  replace (128 * 1 * 1 * (1 / 2000) / (PI * 1000 * (1 / 10) ^ 4))
    with (100 * dg) by (unfold dg; field; lra).
  replace (128 * (1 / 100000) * 1 * (2 * (1 / 2000)) / (PI * 1 * (1 / 10) ^ 4))
    with (2 * dg) by (unfold dg; field; lra).
  replace (128 * 1 * 1 * (2 * (1 / 2000)) / (PI * 1000 * (1 / 10) ^ 4))
    with (200 * dg) by (unfold dg; field; lra).
  replace ((3 / 4) ^ 3) with (27 / 64) by field.
  split; [apply f_equal; ring | nra].
Qed.




(** C6.  Every correlation is homogeneous of degree one in the length of
    the pipe: for a valid input and [k > 0], the call with the length [k*L]
    returns [k] times what the call with the length [L] returns (and raises
    when that one raises). *)
Theorem pressure_drop_linear_in_length {P : Providers}
    k m x rhol rhog mul mug D roughness L :
  friction_positive P -> Reynolds_positive P ->
  0 < k -> valid_input m x rhol rhog mul mug D roughness L ->
  (forall sigma,
     Friedel m x rhol rhog mul mug sigma D roughness (k * L)
     = scale k (Friedel m x rhol rhog mul mug sigma D roughness L))
  /\ Gronnerud m x rhol rhog mul mug D roughness (k * L)
     = scale k (Gronnerud m x rhol rhog mul mug D roughness L)
  /\ (forall rough_correction,
        Chisholm m x rhol rhog mul mug D roughness (k * L) rough_correction
        = scale k
            (Chisholm m x rhol rhog mul mug D roughness L rough_correction))
  /\ Baroczy_Chisholm m x rhol rhog mul mug D roughness (k * L)
     = scale k (Baroczy_Chisholm m x rhol rhog mul mug D roughness L)
  /\ Muller_Steinhagen_Heck m x rhol rhog mul mug D roughness (k * L)
     = scale k (Muller_Steinhagen_Heck m x rhol rhog mul mug D roughness L)
  /\ (forall sigma,
        Lombardi_Pedrocchi m x rhol rhog sigma D (k * L)
        = scale k (Lombardi_Pedrocchi m x rhol rhog sigma D L))
  /\ Theissing m x rhol rhog mul mug D roughness (k * L)
     = scale k (Theissing m x rhol rhog mul mug D roughness L)
  /\ Jung_Radermacher m x rhol rhog mul mug D roughness (k * L)
     = scale k (Jung_Radermacher m x rhol rhog mul mug D roughness L)
  /\ (forall sigma,
        Tran m x rhol rhog mul mug sigma D roughness (k * L)
        = scale k (Tran m x rhol rhog mul mug sigma D roughness L))
  /\ (forall sigma,
        Chen_Friedel m x rhol rhog mul mug sigma D roughness (k * L)
        = scale k (Chen_Friedel m x rhol rhog mul mug sigma D roughness L))
  /\ (forall Pres Pc,
        Zhang_Webb m x rhol mul Pres Pc D roughness (k * L)
        = scale k (Zhang_Webb m x rhol mul Pres Pc D roughness L)).
Proof.
  intros Hff HRe Hk Hvalid. assert (Hk0 : k <> 0) by lra.
  repeat split; intros.
  - apply Friedel_length.
  - apply Gronnerud_length.
  - now apply Chisholm_length.
  - now apply Baroczy_Chisholm_length.
  - apply Muller_Steinhagen_Heck_length.
  - apply Lombardi_Pedrocchi_length.
  - now apply Theissing_length.
  - apply Jung_Radermacher_length.
  - now apply Tran_length.
  - apply Chen_Friedel_length.
  - apply Zhang_Webb_length.
Qed.

(** C6, at k = 3, m = 1, x = 1/2, rhol = 2, rhog = 1, mul = 2, mug = 1,
    D = 1, smooth pipe of length 1: Theissing and Muller_Steinhagen_Heck. *)
Lemma pressure_drop_linear_in_length_witness :
  @Theissing std_providers 1 (1 / 2) 2 1 2 1 1 0 (3 * 1)
  = scale 3 (@Theissing std_providers 1 (1 / 2) 2 1 2 1 1 0 1)
  /\ @Muller_Steinhagen_Heck std_providers 1 (1 / 2) 2 1 2 1 1 0 (3 * 1)
     = scale 3 (@Muller_Steinhagen_Heck std_providers 1 (1 / 2) 2 1 2 1 1 0 1).
Proof.
  pose proof (@pressure_drop_linear_in_length std_providers
                3 1 (1 / 2) 2 1 2 1 1 0 1
                std_friction_positive std_Reynolds_positive
                ltac:(lra) ltac:(constructor; lra)) as H.
  split; apply H.
Defined.




(** C8.  The headers of Friedel, Gronnerud, Chisholm, Baroczy_Chisholm,
    Muller_Steinhagen_Heck, Theissing, Jung_Radermacher, Tran and Zhang_Webb
    give [roughness] the default 0 and [L] the default 1, and that of
    Lombardi_Pedrocchi gives [L] the default 1: a call that omits them is the
    call with 0 and 1.  The header of Chen_Friedel gives them no default: a
    call that omits either raises [TypeError]. *)
Theorem optional_roughness_and_length {P : Providers}
    m x rhol rhog mul mug sigma Pres Pc D :
  call_Friedel m x rhol rhog mul mug sigma D None None
  = Friedel m x rhol rhog mul mug sigma D 0 1
  /\ call_Gronnerud m x rhol rhog mul mug D None None
     = Gronnerud m x rhol rhog mul mug D 0 1
  /\ call_Chisholm m x rhol rhog mul mug D None None None
     = Chisholm m x rhol rhog mul mug D 0 1 false
  /\ call_Baroczy_Chisholm m x rhol rhog mul mug D None None
     = Baroczy_Chisholm m x rhol rhog mul mug D 0 1
  /\ call_Muller_Steinhagen_Heck m x rhol rhog mul mug D None None
     = Muller_Steinhagen_Heck m x rhol rhog mul mug D 0 1
  /\ call_Lombardi_Pedrocchi m x rhol rhog sigma D None
     = Lombardi_Pedrocchi m x rhol rhog sigma D 1
  /\ call_Theissing m x rhol rhog mul mug D None None
     = Theissing m x rhol rhog mul mug D 0 1
  /\ call_Jung_Radermacher m x rhol rhog mul mug D None None
     = Jung_Radermacher m x rhol rhog mul mug D 0 1
  /\ call_Tran m x rhol rhog mul mug sigma D None None
     = Tran m x rhol rhog mul mug sigma D 0 1
  /\ call_Zhang_Webb m x rhol mul Pres Pc D None None
     = Zhang_Webb m x rhol mul Pres Pc D 0 1
  /\ call_Chen_Friedel m x rhol rhog mul mug sigma D (Some 0) (Some 1)
     = Chen_Friedel m x rhol rhog mul mug sigma D 0 1
  /\ call_Chen_Friedel m x rhol rhog mul mug sigma D None None
     = Raise TypeError
  /\ call_Chen_Friedel m x rhol rhog mul mug sigma D (Some 0) None
     = Raise TypeError
  /\ call_Chen_Friedel m x rhol rhog mul mug sigma D None (Some 1)
     = Raise TypeError.
Proof.
  repeat split; reflexivity.
Qed.



(** At equal viscosities the base is zero and [H] is zero. *)
Remark Friedel_H_equal_viscosities rhol rhog mu :
  0 < rhol -> 0 < rhog -> 0 < mu -> Friedel_H rhol rhog mu mu = Val 0.
Proof.
  intros Hrl Hrg Hmu. unfold Friedel_H.
  rewrite (@fdiv_val rhol rhog) by lra. cbn [andThen].
  rewrite fpow_pos by pos. cbn [andThen].
  rewrite (@fdiv_val mu mu) by lra. cbn [andThen].
  replace (mu / mu) with 1 by (field; lra).
  rewrite fpow_one. cbn [andThen].
  replace (1 - 1) with 0 by ring. rewrite fpow_zero by lra.
  cbn [andThen]. f_equal. ring.
Qed.

(** C10.  At x = 0 Theissing returns the same result for any two valid
    inputs that agree on m, rhol, mul, D, roughness and L, whatever the gas
    density and viscosity; at x = 1 it returns the same result for any two
    valid inputs that agree on m, rhog, mug, D, roughness and L, whatever
    the liquid density and viscosity. *)
Theorem Theissing_endpoints_ignore_other_phase {P : Providers}
    m D roughness L rhol rhog mul mug rhol' rhog' mul' mug' :
  friction_positive P -> Reynolds_positive P ->
  0 < m -> 0 < D -> 0 <= roughness -> 0 < L ->
  0 < rhol -> 0 < rhog -> 0 < mul -> 0 < mug ->
  0 < rhol' -> 0 < rhog' -> 0 < mul' -> 0 < mug' ->
  Theissing m 0 rhol rhog mul mug D roughness L
  = Theissing m 0 rhol rhog' mul mug' D roughness L
  /\ Theissing m 1 rhol rhog mul mug D roughness L
     = Theissing m 1 rhol' rhog mul' mug D roughness L.
Proof.
  intros Hff HRe Hm HD Hro HL Hrl Hrg Hml Hmg Hrl' Hrg' Hml' Hmg'.
  split.
  - rewrite (Theissing_x0 Hff HRe Hm Hrl Hrg Hml Hmg HD Hro HL).
    now rewrite (Theissing_x0 Hff HRe Hm Hrl Hrg' Hml Hmg' HD Hro HL).
  - rewrite (Theissing_x1 Hff HRe Hm Hrl Hrg Hml Hmg HD Hro HL).
    now rewrite (Theissing_x1 Hff HRe Hm Hrl' Hrg Hml' Hmg HD Hro HL).
Qed.

(** C10, at m = 1, D = 1, smooth pipe of length 1, with the phase that does
    not flow changed from density 1 and viscosity 1 to density 3 and
    viscosity 5. *)
Lemma Theissing_endpoints_ignore_other_phase_witness :
  @Theissing std_providers 1 0 2 1 2 1 1 0 1
  = @Theissing std_providers 1 0 2 3 2 5 1 0 1
  /\ @Theissing std_providers 1 1 2 1 2 1 1 0 1
     = @Theissing std_providers 1 1 3 1 5 1 1 0 1.
Proof.
  apply (@Theissing_endpoints_ignore_other_phase std_providers
           1 1 0 1 2 1 2 1 3 3 5 5
           std_friction_positive std_Reynolds_positive); lra.
Defined.

(* ------------------------------------------------------------------ *)
(** * Further properties of the correlations *)

(** ** Exceptions of the arithmetic *)

Lemma not_integer_between z y :
  IZR z < y < IZR z + 1 -> is_integer y = false.
Proof.
  intros [Hlo Hhi]. unfold is_integer.
  destruct (Req_dec_T y (IZR (Int_part y))) as [e | _]; [| reflexivity].
  exfalso. rewrite e in Hlo, Hhi.
  apply lt_IZR in Hlo.
  replace (IZR z + 1) with (IZR (z + 1)) in Hhi by (rewrite plus_IZR; ring).
  apply lt_IZR in Hhi. lia.
Qed.

Lemma fpow_negative_raises a b :
  a < 0 -> is_integer b = false -> a ** b = Raise ValueError.
Proof.
  intros Ha Hb. unfold fpow.
  destruct (Req_dec_T b 0) as [-> | _].
  - exfalso. unfold is_integer in Hb.
    replace (Int_part 0) with 0%Z in Hb
      by (apply Int_part_spec; simpl; lra).
    destruct (Req_dec_T 0 0) as [_ | Hne]; [discriminate | now apply Hne].
  - destruct (Rlt_dec 0 a); [lra |].
    destruct (Req_dec_T a 0); [lra |].
    now rewrite Hb.
Qed.

Lemma flog_nonpos a : a <= 0 -> flog a = Raise ValueError.
Proof.
  intro Ha. unfold flog. destruct (Rlt_dec 0 a); [lra | reflexivity].
Qed.

(** A fractional exponent written as a decimal literal. *)
Ltac fractional :=
  first [ apply (@not_integer_between 0%Z); simpl; lra
        | apply (@not_integer_between 1%Z); simpl; lra ].

(** [run_raise] is [run_head] for a goal [exists e, body = Raise e]: a power
    of a negative base and a logarithm of a non-positive number are turned
    into the exception they raise; any other step is split on its outcome,
    and the case in which it raises is closed. *)
Ltac run_raise :=
  lazymatch goal with
  | |- exists e, Raise _ = Raise e => eexists; reflexivity
  | |- exists e, andThen ?c _ = Raise e =>
      let h := head_of c in
      first
        [ lazymatch h with
          | ?a ** ?b => rewrite (@fpow_negative_raises a b) by (lra || fractional)
          | flog ?a => rewrite (@flog_nonpos a) by lra
          end; cbn [andThen]
        | destruct h;
          [rewrite ?andThen_Val; split_tuples; cbv beta iota
          | eexists; reflexivity] ]
  | |- exists e, (if ?b then _ else _) = Raise e => destruct b; [lra |]
  | |- exists e, ?a ** ?b = Raise e =>
      rewrite (@fpow_negative_raises a b) by (lra || fractional)
  end.

Section OutOfRange.

Context {P : Providers}.

Lemma phase_friction_zero flow rho mu D roughness :
  rho = 0 \/ D = 0 ->
  phase_friction flow rho mu D roughness = Raise ZeroDivisionError.
Proof.
  intro H. unfold phase_friction, phase_velocity.
  destruct (Req_dec_T rho 0) as [-> | Hr].
  - now rewrite fdiv_zero.
  - destruct H as [H | ->]; [contradiction |].
    rewrite fdiv_val by assumption. cbn [andThen].
    replace (PI / 4 * 0 ^ 2) with 0 by (simpl; ring).
    now rewrite fdiv_zero.
Qed.

End OutOfRange.

(** X1.  A pipe of diameter zero, or a liquid of density zero, makes every
    correlation that opens with the liquid-only single-phase block raise
    [ZeroDivisionError], before any collaborator is called. *)
Theorem zero_diameter_or_liquid_density {P : Providers}
    m x rhol rhog mul mug sigma Pres Pc D roughness L :
  rhol = 0 \/ D = 0 ->
  Friedel m x rhol rhog mul mug sigma D roughness L = Raise ZeroDivisionError
  /\ Gronnerud m x rhol rhog mul mug D roughness L = Raise ZeroDivisionError
  /\ (forall b,
        Chisholm m x rhol rhog mul mug D roughness L b
        = Raise ZeroDivisionError)
  /\ Baroczy_Chisholm m x rhol rhog mul mug D roughness L
     = Raise ZeroDivisionError
  /\ Muller_Steinhagen_Heck m x rhol rhog mul mug D roughness L
     = Raise ZeroDivisionError
  /\ Theissing m x rhol rhog mul mug D roughness L = Raise ZeroDivisionError
  /\ Jung_Radermacher m x rhol rhog mul mug D roughness L
     = Raise ZeroDivisionError
  /\ Tran m x rhol rhog mul mug sigma D roughness L = Raise ZeroDivisionError
  /\ Chen_Friedel m x rhol rhog mul mug sigma D roughness L
     = Raise ZeroDivisionError
  /\ Zhang_Webb m x rhol mul Pres Pc D roughness L = Raise ZeroDivisionError.
Proof.
  intro H.
  pose proof (@phase_friction_zero P m rhol mul D roughness H) as E.
  assert (HG : forall k : R -> outcome R,
             (let! G := m // (PI / 4 * D ^ 2) in
              let! V := G // rhol in k V) = Raise ZeroDivisionError).
  { intro k. destruct (Req_dec_T D 0) as [-> | HD].
    - replace (PI / 4 * 0 ^ 2) with 0 by (simpl; ring). now rewrite fdiv_zero.
    - destruct H as [-> | H0]; [| contradiction].
      rewrite fdiv_val.
      + cbn [andThen]. now rewrite fdiv_zero.
      + apply Rmult_integral_contrapositive_currified;
          [pose proof PI_RGT_0; lra | now apply pow_nonzero]. }
  repeat split; intros.
  - unfold Friedel. now rewrite E.
  - unfold Gronnerud. apply HG.
  - unfold Chisholm.
    destruct (m // (PI / 4 * D ^ 2)) as [G | e] eqn:EG; cbn [andThen].
    + now rewrite E.
    + unfold fdiv in EG. destruct (Req_dec_T (PI / 4 * D ^ 2) 0); congruence.
  - unfold Baroczy_Chisholm.
    destruct (m // (PI / 4 * D ^ 2)) as [G | e] eqn:EG; cbn [andThen].
    + now rewrite E.
    + unfold fdiv in EG. destruct (Req_dec_T (PI / 4 * D ^ 2) 0); congruence.
  - unfold Muller_Steinhagen_Heck. now rewrite E.
  - unfold Theissing. now rewrite E.
  - unfold Jung_Radermacher. now rewrite E.
  - unfold Tran. now rewrite E.
  - unfold Chen_Friedel. now rewrite E.
  - unfold Zhang_Webb. now rewrite E.
Qed.

(** X1, for a pipe of diameter zero. *)
Lemma zero_diameter_or_liquid_density_witness :
  @Friedel std_providers 1 (1 / 2) 2 1 2 1 1 0 0 1 = Raise ZeroDivisionError
  /\ @Gronnerud std_providers 1 (1 / 2) 2 1 2 1 0 0 1 = Raise ZeroDivisionError.
Proof.
  pose proof (@zero_diameter_or_liquid_density std_providers
                1 (1 / 2) 2 1 2 1 1 1 2 0 0 1 (or_intror eq_refl)) as H.
  split; apply H.
Defined.


(** ** The endpoints of the quality for the other correlations *)

Lemma Gronnerud_f_Fr_positive Frl :
  0 < Frl -> exists f, Gronnerud_f_Fr Frl = Val f /\ 0 < f /\ (1 <= Frl -> f = 1).
Proof.
  intro HF. unfold Gronnerud_f_Fr.
  destruct (Rle_dec 1 Frl) as [Hge | Hlt].
  - exists 1. repeat split; auto. lra.
  - rewrite fpow_pos by assumption. cbn [andThen].
    rewrite fdiv_val by lra. cbn [andThen].
    rewrite flog_pos by pos. cbn [andThen].
    eexists. split; [reflexivity |]. split; [| intro; lra].
    assert (0 < Rpower Frl 0.3) by pos.
    assert (0 <= ln (1 / Frl) ^ 2) by (apply pow2_ge_0).
    lra.
Qed.

(** [crunch] runs the arithmetic steps whose side conditions follow from
    the hypotheses at hand. *)
Ltac crunch :=
  repeat (cbn [andThen];
          first [ rewrite fdiv_val by (solve [lra | pos])
                | rewrite fpow_zero by lra
                | rewrite fpow_one
                | rewrite fpow_pos by (solve [assumption | lra | pos])
                | rewrite flog_pos by (solve [lra | pos]) ]);
  cbn [andThen].

Section OtherEndpoints.

Context {P : Providers}.
Hypothesis Hff : friction_positive P.
Hypothesis HRe : Reynolds_positive P.

Variables m rhol rhog mul mug D roughness L : R.
Hypothesis Hm : 0 < m.
Hypothesis Hrhol : 0 < rhol.
Hypothesis Hrhog : 0 < rhog.
Hypothesis Hmul : 0 < mul.
Hypothesis Hmug : 0 < mug.
Hypothesis HD : 0 < D.
Hypothesis Hrough : 0 <= roughness.
Hypothesis HL : 0 < L.

Ltac with_phases :=
  destruct (both_phases Hff HRe Hm Hrhol Hrhog Hmul Hmug HD Hrough HL)
    as (Re_lo & fd_lo & Re_go & fd_go & dP_lo & dP_go & El & Eg & Dl & Dg
        & Sl & Sg & HRl & Hfl & HRg & Hfg & Pl & Pg & Hratio).

(** X3.  Gronnerud at x = 0 returns the liquid-only drop.  At x = 1, when
    the liquid Froude number is at least 1 (so that [f_Fr] is clamped to 1),
    it returns the liquid-only drop times [(rhol/rhog)/(mul/mug)^0.25]. *)
Theorem Gronnerud_endpoints :
  Froude_positive P ->
  Gronnerud m 0 rhol rhog mul mug D roughness L
  = single_phase_drop m rhol mul D roughness L
  /\ (holds (fun Frl => 1 <= Frl) (Froude (m / (PI / 4 * D ^ 2) / rhol) D true) ->
      Gronnerud m 1 rhol rhog mul mug D roughness L
      = scale (rhol / rhog / Rpower (mul / mug) 0.25)
          (single_phase_drop m rhol mul D roughness L)).
Proof.
  intro HFr. with_phases.
  assert (HV : 0 < m / (PI / 4 * D ^ 2) / rhol) by pos.
  split.
  - destruct (holds_Val _ _ (HFr _ D HV HD)) as (Frl & EFr & HFrl).
    destruct (@Gronnerud_f_Fr_positive Frl HFrl) as (f & Ef & Hf & _).
    unfold Gronnerud. crunch. rewrite EFr. cbn [andThen].
    rewrite Ef. crunch. rewrite El. cbn [andThen]. rewrite Dl, Sl.
    cbn [andThen]. f_equal. simpl. ring.
  - intro Hclamp.
    destruct (holds_Val _ _ Hclamp) as (Frl & EFr & HFrl).
    destruct (@Gronnerud_f_Fr_positive Frl ltac:(lra)) as (f & Ef & Hf & H1).
    rewrite (H1 HFrl) in Ef.
    unfold Gronnerud. crunch. rewrite EFr. cbn [andThen].
    rewrite Ef. crunch. rewrite El. cbn [andThen]. rewrite Dl, Sl.
    cbn [andThen scale]. f_equal. simpl. ring.
Qed.

(** X4.  Tran at x = 0 returns the liquid-only drop; at x = 1 it returns
    4.3 times the gas-only drop, not the gas-only drop. *)
Theorem Tran_endpoints sigma :
  holds (fun _ => True) (Confinement D rhol rhog sigma) ->
  Tran m 0 rhol rhog mul mug sigma D roughness L
  = single_phase_drop m rhol mul D roughness L
  /\ Tran m 1 rhol rhog mul mug sigma D roughness L
     = scale 4.3 (single_phase_drop m rhog mug D roughness L).
Proof.
  intro HCo. with_phases.
  destruct (holds_Val _ _ HCo) as (Co & ECo & _).
  split; unfold Tran; rewrite El; cbn [andThen]; rewrite Dl, Eg;
    cbn [andThen]; rewrite Dg; cbn [andThen];
    rewrite fdiv_val by lra; cbn [andThen]; rewrite ECo; cbn [andThen].
  - rewrite !fpow_zero by lra. cbn [andThen].
    rewrite Rminus_0_r, fpow_one. cbn [andThen]. rewrite Sl.
    f_equal. ring.
  - rewrite !fpow_one. cbn [andThen].
    replace (1 - 1) with 0 by ring. rewrite fpow_zero by lra.
    cbn [andThen]. rewrite Sg. cbn [scale andThen]. f_equal. field. lra.
Qed.

(** X5.  Zhang_Webb at x = 0 returns the liquid-only drop; at x = 1 it
    returns the liquid-only drop times [2.87/(P/Pc)]. *)
Theorem Zhang_Webb_endpoints Pres Pc :
  0 < Pres -> 0 < Pc ->
  Zhang_Webb m 0 rhol mul Pres Pc D roughness L
  = single_phase_drop m rhol mul D roughness L
  /\ Zhang_Webb m 1 rhol mul Pres Pc D roughness L
     = scale (2.87 / (Pres / Pc)) (single_phase_drop m rhol mul D roughness L).
Proof.
  intros HP HPc.
  destruct (single_phase_drop_ok (L := L) Hff HRe Hm Hrhol Hmul HD Hrough HL)
    as (Re_lo & fd_lo & El & HRl & Hfl & Sl & Pl).
  assert (HPr : 0 < Pres / Pc) by pos.
  remember (fd_lo * L / D * (0.5 * rhol * (m / rhol / (PI / 4 * D ^ 2)) ^ 2))
    as dP_lo eqn:Ed.
  split; unfold Zhang_Webb; rewrite El, Sl; cbn [andThen];
    rewrite phase_dP_val by lra; cbn [andThen]; rewrite <- Ed;
    rewrite !fdiv_val by lra; cbn [andThen];
    rewrite fdiv_val by lra; cbn [andThen].
  - rewrite fpow_zero by lra. cbn [andThen].
    rewrite Rminus_0_r, fpow_one. cbn [andThen].
    rewrite fpow_pos by assumption. cbn [andThen].
    f_equal. field. lra.
  - rewrite fpow_one. cbn [andThen].
    replace (1 - 1) with 0 by ring. rewrite fpow_zero by lra.
    cbn [andThen]. rewrite fpow_pos by assumption. cbn [andThen scale].
    f_equal. field. lra.
Qed.


End OtherEndpoints.

(** X3, at m = 1, rhol = 2, rhog = 1, mul = 2, mug = 1, D = 1, smooth pipe
    of length 1. *)
Lemma Gronnerud_endpoints_witness :
  @Gronnerud std_providers 1 0 2 1 2 1 1 0 1
  = @single_phase_drop std_providers 1 2 2 1 0 1.
Proof.
  apply (@Gronnerud_endpoints std_providers
           std_friction_positive std_Reynolds_positive 1 2 1 2 1 1 0 1
           ltac:(lra) ltac:(lra) ltac:(lra) ltac:(lra) ltac:(lra) ltac:(lra)
           ltac:(lra) ltac:(lra) std_Froude_positive).
Defined.

(** X4, at the same input with rhol = 3 and sigma = 1. *)
Lemma Tran_endpoints_witness :
  @Tran std_providers 1 0 3 1 2 1 1 1 0 1
  = @single_phase_drop std_providers 1 3 2 1 0 1
  /\ @Tran std_providers 1 1 3 1 2 1 1 1 0 1
     = scale 4.3 (@single_phase_drop std_providers 1 1 1 1 0 1).
Proof.
  apply (@Tran_endpoints std_providers
           std_friction_positive std_Reynolds_positive 1 3 1 2 1 1 0 1
           ltac:(lra) ltac:(lra) ltac:(lra) ltac:(lra) ltac:(lra) ltac:(lra)
           ltac:(lra) ltac:(lra) 1).
  cbn [Confinement std_providers]. unfold std_Confinement, g_earth.
  rewrite fdiv_val by lra. cbn [andThen].
  rewrite fpow_pos by pos. cbn [andThen].
  rewrite fdiv_val by lra. exact I.
Defined.

(** X5, at m = 1, rhol = 2, mul = 2, P = 1, Pc = 2, D = 1, smooth pipe of
    length 1. *)
Lemma Zhang_Webb_endpoints_witness :
  @Zhang_Webb std_providers 1 0 2 2 1 2 1 0 1
  = @single_phase_drop std_providers 1 2 2 1 0 1
  /\ @Zhang_Webb std_providers 1 1 2 2 1 2 1 0 1
     = scale (2.87 / (1 / 2)) (@single_phase_drop std_providers 1 2 2 1 0 1).
Proof.
  apply (@Zhang_Webb_endpoints std_providers
           std_friction_positive std_Reynolds_positive 1 2 2 1 0 1); lra.
Defined.

Lemma std_Xtt_at_one rhol rhog mul mug :
  0 < rhol -> 0 < rhog -> 0 < mul -> 0 < mug ->
  std_Xtt 1 rhol rhog mul mug = Val 0.
Proof.
  intros Hrl Hrg Hml Hmg. unfold std_Xtt.
  rewrite fdiv_val by lra. cbn [andThen].
  replace ((1 - 1) / 1) with 0 by (field; lra).
  rewrite fpow_zero by lra. cbn [andThen].
  rewrite fdiv_val by lra. cbn [andThen].
  rewrite fpow_pos by pos. cbn [andThen].
  rewrite fdiv_val by lra. cbn [andThen].
  rewrite fpow_pos by pos. cbn [andThen]. f_equal. ring.
Qed.


(** ** Chisholm and Baroczy_Chisholm *)

Lemma Baroczy_B_is_Chisholm_B Gamma G_tp :
  28 < Gamma \/ (Gamma <= 9.5 /\ 1900 <= G_tp)
  \/ (9.5 < Gamma <= 28 /\ G_tp <= 600) ->
  Baroczy_B Gamma G_tp = Chisholm_B Gamma G_tp.
Proof.
  intro H. unfold Baroczy_B, Chisholm_B.
  repeat match goal with
         | |- context [Rle_dec ?a ?b] => destruct (Rle_dec a b)
         | |- context [Rlt_dec ?a ?b] => destruct (Rlt_dec a b)
         end; try reflexivity; exfalso; lra.
Qed.

Section ChisholmFamily.

Context {P : Providers}.
Hypothesis Hff : friction_positive P.
Hypothesis HRe : Reynolds_positive P.

Variables m x rhol rhog mul mug D roughness L : R.
Hypothesis Hvalid : valid_input m x rhol rhog mul mug D roughness L.

Ltac with_phases :=
  pose proof Hvalid as [Hm Hx Hrhol Hrhog Hmul Hmug HD Hrough HL];
  destruct (both_phases Hff HRe Hm Hrhol Hrhog Hmul Hmug HD Hrough HL)
    as (Re_lo & fd_lo & Re_go & fd_go & dP_lo & dP_go & El & Eg & Dl & Dg
        & Sl & Sg & HRl & Hfl & HRg & Hfg & Pl & Pg & Hratio).

(** X7.  Baroczy_Chisholm and Chisholm without the roughness correction
    return the same result wherever their tables of [B] coincide: for
    [Gamma > 28], for [Gamma <= 9.5] with [G_tp >= 1900], and for
    [9.5 < Gamma <= 28] with [G_tp <= 600]. *)
Theorem Baroczy_Chisholm_agrees_with_Chisholm :
  exists dP_lo dP_go,
    single_phase_drop m rhol mul D roughness L = Val dP_lo
    /\ single_phase_drop m rhog mug D roughness L = Val dP_go
    /\ let Gamma := sqrt (dP_go / dP_lo) in
       let G_tp := m / (PI / 4 * D ^ 2) in
       (28 < Gamma \/ (Gamma <= 9.5 /\ 1900 <= G_tp)
        \/ (9.5 < Gamma <= 28 /\ G_tp <= 600) ->
        Baroczy_Chisholm m x rhol rhog mul mug D roughness L
        = Chisholm m x rhol rhog mul mug D roughness L false).
Proof.
  with_phases. exists dP_lo, dP_go. repeat split; auto. cbv zeta. intro Hband.
  unfold Baroczy_Chisholm, Chisholm.
  rewrite fdiv_val by pos. cbn [andThen].
  rewrite El. cbn [andThen]. rewrite Dl, Eg. cbn [andThen].
  rewrite Dg. cbn [andThen]. rewrite fdiv_val by lra. cbn [andThen].
  assert (Hr : 0 < dP_go / dP_lo) by pos.
  rewrite fpow_pos, Rpower_half_sqrt by assumption. cbn [andThen].
  rewrite Baroczy_B_is_Chisholm_B by assumption.
  destruct (Chisholm_B (sqrt (dP_go / dP_lo)) (m / (PI / 4 * D ^ 2)));
    reflexivity.
Qed.

(** X8.  When the liquid-only and the gas-only drops are equal, Chisholm
    without the roughness correction and Baroczy_Chisholm return that drop
    at every quality in [0,1]. *)
Theorem Chisholm_equal_drops :
  single_phase_drop m rhol mul D roughness L
  = single_phase_drop m rhog mug D roughness L ->
  Chisholm m x rhol rhog mul mug D roughness L false
  = single_phase_drop m rhol mul D roughness L
  /\ Baroczy_Chisholm m x rhol rhog mul mug D roughness L
     = single_phase_drop m rhol mul D roughness L.
Proof.
  intro Heq. pose proof Hvalid as [Hm Hx Hrhol Hrhog Hmul Hmug HD Hrough HL].
  assert (Hphi : forall B, Chisholm_phi2 (sqrt 1) B 0.25 x = Val 1).
  { intro B. unfold Chisholm_phi2.
    destruct (@fpow_nonneg x ((2 - 0.25) / 2)) as (a & -> & _); [lra | lra |].
    destruct (@fpow_nonneg (1 - x) ((2 - 0.25) / 2)) as (b & -> & _);
      [lra | lra |].
    destruct (@fpow_nonneg x (2 - 0.25)) as (c & -> & _); [lra | lra |].
    cbn [andThen]. rewrite sqrt_1. f_equal. ring. }
  split.
  - destruct (Chisholm_unfolded Hff HRe Hm Hrhol Hrhog Hmul Hmug HD Hrough HL x)
      as (dP_lo & dP_go & Sl & Sg & Pl & Pg & E).
    rewrite Sl, Sg in Heq. injection Heq as <-.
    rewrite E, Sl. replace (dP_lo / dP_lo) with 1 by (field; lra).
    rewrite Hphi. cbn [andThen]. f_equal. ring.
  - destruct (Baroczy_unfolded Hff HRe Hm Hrhol Hrhog Hmul Hmug HD Hrough HL x)
      as (dP_lo & dP_go & B & Sl & Sg & Pl & Pg & HB & E).
    rewrite Sl, Sg in Heq. injection Heq as <-.
    rewrite E, Sl. replace (dP_lo / dP_lo) with 1 by (field; lra).
    rewrite Hphi. cbn [andThen]. f_equal. ring.
Qed.

(** X9.  With [rough_correction=True] Chisholm divides by
    [log(Re_go/Re_lo)]: when the two Reynolds numbers are equal the call
    raises [ZeroDivisionError]. *)
Theorem Chisholm_rough_correction_equal_Reynolds :
  Reynolds (m / rhol / (PI / 4 * D ^ 2)) rhol mul D
  = Reynolds (m / rhog / (PI / 4 * D ^ 2)) rhog mug D ->
  Chisholm m x rhol rhog mul mug D roughness L true
  = Raise ZeroDivisionError.
Proof.
  intro HRey. with_phases.
  assert (HReq : Re_go = Re_lo).
  { unfold phase_friction in El, Eg.
    rewrite phase_velocity_val in El, Eg by lra. cbn [andThen] in El, Eg.
    rewrite HRey in El.
    destruct (Reynolds (m / rhog / (PI / 4 * D ^ 2)) rhog mug D) as [Re | e];
      cbn [andThen] in El, Eg; [| discriminate].
    rewrite fdiv_val in El, Eg by lra. cbn [andThen] in El, Eg.
    destruct (friction_factor Re (roughness / D)) as [fd | e];
      cbn [andThen] in El, Eg; [| discriminate].
    congruence. }
  subst Re_go.
  assert (Hr : 0 < dP_go / dP_lo) by pos.
  unfold Chisholm. rewrite fdiv_val by pos. cbn [andThen].
  rewrite El. cbn [andThen]. rewrite Dl, Eg. cbn [andThen].
  rewrite Dg. cbn [andThen]. rewrite fdiv_val by lra. cbn [andThen].
  rewrite fpow_pos, Rpower_half_sqrt by assumption. cbn [andThen].
  rewrite Chisholm_B_table by pos. cbn [andThen].
  unfold Chisholm_rough. rewrite fdiv_val by lra. cbn [andThen].
  rewrite flog_pos by pos. cbn [andThen].
  rewrite fdiv_val by lra. cbn [andThen].
  rewrite flog_pos by pos. cbn [andThen].
  replace (Re_lo / Re_lo) with 1 by (field; lra).
  rewrite ln_1, fdiv_zero. reflexivity.
Qed.

End ChisholmFamily.

(** X7, at m = 1, x = 1/2, rhol = 1000, rhog = 1, mul = 1, mug = 1, D = 1,
    smooth pipe of length 1. *)
Lemma Baroczy_Chisholm_agrees_with_Chisholm_witness :
  exists dP_lo dP_go,
    @single_phase_drop std_providers 1 1000 1 1 0 1 = Val dP_lo
    /\ @single_phase_drop std_providers 1 1 1 1 0 1 = Val dP_go
    /\ let Gamma := sqrt (dP_go / dP_lo) in
       let G_tp := 1 / (PI / 4 * 1 ^ 2) in
       (28 < Gamma \/ (Gamma <= 9.5 /\ 1900 <= G_tp)
        \/ (9.5 < Gamma <= 28 /\ G_tp <= 600) ->
        @Baroczy_Chisholm std_providers 1 (1 / 2) 1000 1 1 1 1 0 1
        = @Chisholm std_providers 1 (1 / 2) 1000 1 1 1 1 0 1 false).
Proof.
  apply (@Baroczy_Chisholm_agrees_with_Chisholm std_providers
           std_friction_positive std_Reynolds_positive
           1 (1 / 2) 1000 1 1 1 1 0 1).
  constructor; lra.
Defined.

(** X8, for two phases of the same density and viscosity. *)
Lemma Chisholm_equal_drops_witness :
  @Chisholm std_providers 1 (1 / 2) 1 1 1 1 1 0 1 false
  = @single_phase_drop std_providers 1 1 1 1 0 1
  /\ @Baroczy_Chisholm std_providers 1 (1 / 2) 1 1 1 1 1 0 1
     = @single_phase_drop std_providers 1 1 1 1 0 1.
Proof.
  apply (@Chisholm_equal_drops std_providers
           std_friction_positive std_Reynolds_positive
           1 (1 / 2) 1 1 1 1 1 0 1).
  - constructor; lra.
  - reflexivity.
Defined.

(** X9, for two phases of the same viscosity (rhol = 2, rhog = 1): the
    reference Reynolds numbers are equal. *)
Lemma Chisholm_rough_correction_equal_Reynolds_witness :
  @Chisholm std_providers 1 (1 / 2) 2 1 1 1 1 0 1 true
  = Raise ZeroDivisionError.
Proof.
  apply (@Chisholm_rough_correction_equal_Reynolds std_providers
           std_friction_positive std_Reynolds_positive
           1 (1 / 2) 2 1 1 1 1 0 1).
  - constructor; lra.
  - cbn [Reynolds std_providers]. unfold std_Reynolds.
    rewrite !fdiv_val by lra. cbn [andThen].
    pose proof PI_RGT_0.
    rewrite !fdiv_val by lra. f_equal. field. lra.
Defined.

(** ** The table of Chisholm as a function of the mass flux *)

Lemma sqrt_lower a s : 0 <= s -> s * s <= a -> s <= sqrt a.
Proof.
  intros Hs Ha. rewrite <- (sqrt_square s) by assumption.
  apply sqrt_le_1_alt. assumption.
Qed.

Lemma sqrt_upper a s : 0 <= a -> 0 <= s -> a <= s * s -> sqrt a <= s.
Proof.
  intros H0 Hs Ha. rewrite <- (sqrt_square s) by assumption.
  apply sqrt_le_1_alt. assumption.
Qed.

Lemma Chisholm_B_documented_decreasing Gamma G1 G2 :
  0 < Gamma -> 0 < G1 -> G1 <= G2 ->
  Chisholm_B_documented Gamma G2 <= Chisholm_B_documented Gamma G1.
Proof.
  intros HG H1 H12.
  assert (Hs1 : 0 < sqrt G1) by pos.
  assert (Hs2 : 0 < sqrt G2) by (apply sqrt_lt_R0; lra).
  assert (Hs12 : sqrt G1 <= sqrt G2) by (apply sqrt_le_1_alt; assumption).
  assert (Hinv : / sqrt G2 <= / sqrt G1) by (apply Rinv_le_contravar; lra).
  assert (HiG : / G2 <= / G1) by (apply Rinv_le_contravar; lra).
  (* the pieces are decreasing *)
  assert (F4 : 2400 / G2 <= 2400 / G1)
    by (unfold Rdiv; apply Rmult_le_compat_l; lra).
  assert (F5 : 55 / sqrt G2 <= 55 / sqrt G1)
    by (unfold Rdiv; apply Rmult_le_compat_l; lra).
  assert (F6 : 520 / (Gamma * sqrt G2) <= 520 / (Gamma * sqrt G1)).
  { unfold Rdiv. apply Rmult_le_compat_l; [lra |].
    apply Rinv_le_contravar; [pos |]. apply Rmult_le_compat_l; lra. }
  assert (F8 : 15000 / (Gamma ^ 2 * sqrt G2) <= 15000 / (Gamma ^ 2 * sqrt G1)).
  { unfold Rdiv. apply Rmult_le_compat_l; [lra |].
    apply Rinv_le_contravar; [pos |].
    apply Rmult_le_compat_l; [apply pow_le; lra | lra]. }
  (* the thresholds *)
  assert (F1 : 500 < G2 -> 2400 / G2 <= 4.8).
  { intro H. apply Rmult_le_reg_r with G2; [lra |].
    unfold Rdiv. rewrite Rmult_assoc, Rinv_l by lra. lra. }
  assert (F2 : 1900 <= G2 -> 55 / sqrt G2 <= 2400 / 1900).
  { intro H. assert (43.55 <= sqrt G2) by (apply sqrt_lower; lra).
    apply Rmult_le_reg_r with (sqrt G2); [lra |].
    unfold Rdiv at 1. rewrite Rmult_assoc, Rinv_l by lra. lra. }
  assert (F3 : G1 < 1900 -> 2400 / 1900 <= 2400 / G1).
  { intro H. unfold Rdiv. apply Rmult_le_compat_l; [lra |].
    apply Rinv_le_contravar; lra. }
  assert (F7 : G1 <= 600 -> 21 / Gamma <= 520 / (Gamma * sqrt G1)).
  { intro H. assert (sqrt G1 <= 24.5) by (apply sqrt_upper; lra).
    apply Rmult_le_reg_r with (Gamma * sqrt G1); [pos |].
    unfold Rdiv at 2. rewrite Rmult_assoc, Rinv_l by (apply Rgt_not_eq; pos).
    replace (21 / Gamma * (Gamma * sqrt G1)) with (21 * sqrt G1)
      by (field; lra).
    lra. }
  unfold Chisholm_B_documented.
  repeat match goal with
         | |- context [Rle_dec ?a ?b] => destruct (Rle_dec a b)
         | |- context [Rlt_dec ?a ?b] => destruct (Rlt_dec a b)
         end;
    repeat match goal with
           | H : _ -> _ <= _ |- _ =>
               first [specialize (H ltac:(lra)) | clear H]
           end;
    lra.
Qed.

(** X10.  At a fixed [Gamma] the coefficient [B] that Chisholm selects never
    increases with the mass flux: the pieces of the table are decreasing,
    and at each threshold (500, 1900, 600) the upper piece starts at or below
    the lower one. *)
Theorem Chisholm_B_decreases_with_mass_flux Gamma G1 G2 :
  0 < Gamma -> 0 < G1 -> G1 <= G2 ->
  exists B1 B2,
    Chisholm_B Gamma G1 = Val B1 /\ Chisholm_B Gamma G2 = Val B2 /\ B2 <= B1.
Proof.
  intros HG H1 H12.
  exists (Chisholm_B_documented Gamma G1), (Chisholm_B_documented Gamma G2).
  rewrite !Chisholm_B_table by lra.
  repeat split. now apply Chisholm_B_documented_decreasing.
Qed.

(** X10, across the threshold 1900 in the band [Gamma <= 9.5]. *)
Lemma Chisholm_B_decreases_with_mass_flux_witness :
  exists B1 B2,
    Chisholm_B 5 1000 = Val B1 /\ Chisholm_B 5 2000 = Val B2 /\ B2 <= B1.
Proof.
  apply (@Chisholm_B_decreases_with_mass_flux 5 1000 2000); lra.
Defined.

(** ** The Froude factor of Gronnerud *)

(** X11.  The factor [f_Fr] of Gronnerud is 1 for a liquid Froude number of
    at least 1 and a positive number [Frl^0.3 + 0.0055*ln(Frl)^2] below 1;
    a Froude number of zero raises [ZeroDivisionError] and a negative one
    [ValueError].  The clamp to 1 acts only from above: for
    [Frl <= exp(-14)] the factor exceeds 1. *)
Theorem Gronnerud_f_Fr_domain Frl :
  (1 <= Frl -> Gronnerud_f_Fr Frl = Val 1)
  /\ (0 < Frl < 1 ->
      Gronnerud_f_Fr Frl = Val (Rpower Frl 0.3 + 0.0055 * ln Frl ^ 2)
      /\ 0 < Rpower Frl 0.3 + 0.0055 * ln Frl ^ 2)
  /\ (Frl = 0 -> Gronnerud_f_Fr Frl = Raise ZeroDivisionError)
  /\ (Frl < 0 -> Gronnerud_f_Fr Frl = Raise ValueError)
  /\ (0 < Frl <= exp (- 14) -> 1 < Rpower Frl 0.3 + 0.0055 * ln Frl ^ 2).
Proof.
  unfold Gronnerud_f_Fr. repeat split.
  - intro H. destruct (Rle_dec 1 Frl); [reflexivity | contradiction].
  - destruct (Rle_dec 1 Frl); [lra |].
    rewrite fpow_pos by lra. cbn [andThen].
    rewrite fdiv_val by lra. cbn [andThen].
    rewrite flog_pos by pos. cbn [andThen].
    unfold Rdiv. rewrite Rmult_1_l, ln_Rinv by lra.
    f_equal. ring.
  - assert (0 < Rpower Frl 0.3) by pos.
    assert (0 <= ln Frl ^ 2) by apply pow2_ge_0. lra.
  - intros ->. destruct (Rle_dec 1 0); [lra |].
    rewrite fpow_zero by lra. cbn [andThen]. now rewrite fdiv_zero.
  - intro H. destruct (Rle_dec 1 Frl); [lra |].
    rewrite fpow_negative_raises by (lra || fractional). reflexivity.
  - intros [H0 Hs].
    assert (Hln : ln Frl <= - 14).
    { rewrite <- (ln_exp (- 14)). destruct Hs as [Hs | ->]; [| lra].
      left. now apply ln_increasing. }
    assert (0 < Rpower Frl 0.3) by pos.
    assert (196 <= ln Frl ^ 2) by (simpl; nra).
    lra.
Qed.

(** ** The power laws of Lombardi_Pedrocchi *)

(** X12.  Lombardi_Pedrocchi is a power law in the mass flow and in the
    surface tension: multiplying the mass flow by [k > 0] multiplies the
    result by [k^1.4], and multiplying the surface tension by [k] multiplies
    it by [k^0.4] (and the call raises when the original one raises). *)
Theorem Lombardi_Pedrocchi_power_laws {P : Providers}
    k m x rhol rhog sigma D L :
  0 < k -> 0 < m -> 0 < sigma -> 0 < D ->
  Lombardi_Pedrocchi (k * m) x rhol rhog sigma D L
  = scale (Rpower k 1.4) (Lombardi_Pedrocchi m x rhol rhog sigma D L)
  /\ Lombardi_Pedrocchi m x rhol rhog (k * sigma) D L
     = scale (Rpower k 0.4) (Lombardi_Pedrocchi m x rhol rhog sigma D L).
Proof.
  intros Hk Hm Hs HD.
  assert (HG : 0 < m / (PI / 4 * D ^ 2)) by pos.
  assert (HkG : 0 < k * (m / (PI / 4 * D ^ 2))) by pos.
  assert (Hks : 0 < k * sigma) by pos.
  split; unfold Lombardi_Pedrocchi;
    destruct (rho_homogeneous x rhol rhog) as [rho_h | e]; cbn [andThen scale];
    try reflexivity;
    rewrite !fdiv_val by pos; cbn [andThen].
  - replace (k * m / (PI / 4 * D ^ 2)) with (k * (m / (PI / 4 * D ^ 2)))
      by (unfold Rdiv; ring).
    rewrite !(@fpow_pos (m / (PI / 4 * D ^ 2))),
            !(@fpow_pos (k * (m / (PI / 4 * D ^ 2)))) by assumption.
    cbn [andThen].
    rewrite !(@fpow_pos sigma) by assumption. cbn [andThen].
    rewrite !(@fpow_pos D) by assumption. cbn [andThen].
    rewrite <- Rpower_mult_distr by assumption.
    destruct (rho_h ** 0.866) as [r | e]; cbn [andThen]; [| reflexivity].
    match goal with
    | |- ?n // ?d = _ =>
        replace n with (Rpower k 1.4
                        * (0.83 * Rpower (m / (PI / 4 * D ^ 2)) 1.4
                           * Rpower sigma 0.4 * L)) by ring
    end.
    exact (fdiv_scale_num _ _ _).
  - rewrite !(@fpow_pos (m / (PI / 4 * D ^ 2))) by assumption.
    cbn [andThen].
    rewrite !(@fpow_pos sigma), !(@fpow_pos (k * sigma)) by assumption.
    cbn [andThen].
    rewrite !(@fpow_pos D) by assumption. cbn [andThen].
    rewrite <- Rpower_mult_distr by assumption.
    destruct (rho_h ** 0.866) as [r | e]; cbn [andThen]; [| reflexivity].
    match goal with
    | |- ?n // ?d = _ =>
        replace n with (Rpower k 0.4
                        * (0.83 * Rpower (m / (PI / 4 * D ^ 2)) 1.4
                           * Rpower sigma 0.4 * L)) by ring
    end.
    exact (fdiv_scale_num _ _ _).
Qed.

(** X12, at k = 2, m = 1, x = 1/2, rhol = 2, rhog = 1, sigma = 1, D = 1,
    L = 1. *)
Lemma Lombardi_Pedrocchi_power_laws_witness :
  @Lombardi_Pedrocchi std_providers (2 * 1) (1 / 2) 2 1 1 1 1
  = scale (Rpower 2 1.4) (@Lombardi_Pedrocchi std_providers 1 (1 / 2) 2 1 1 1 1)
  /\ @Lombardi_Pedrocchi std_providers 1 (1 / 2) 2 1 (2 * 1) 1 1
     = scale (Rpower 2 0.4)
         (@Lombardi_Pedrocchi std_providers 1 (1 / 2) 2 1 1 1 1).
Proof.
  apply (@Lombardi_Pedrocchi_power_laws std_providers 2 1 (1 / 2) 2 1 1 1 1);
    lra.
Defined.

(** ** Theissing inside (0,1) *)

Lemma ln_unit_nonzero x : 0 < x < 1 -> ln x <> 0.
Proof. intros [H0 H1]. apply ln_neq_0; lra. Qed.

Lemma Rpower_Rinv a p : 0 < a -> Rpower (/ a) p = / Rpower a p.
Proof.
  intro Ha. rewrite <- Rpower_Ropp. unfold Rpower.
  rewrite ln_Rinv by assumption. f_equal. ring.
Qed.

(** With positive drops and densities the model of lines 721-726 has two
    ways to fail, the divisions by [n] and by [n*epsilon]; otherwise it
    returns the blend. *)
Lemma Theissing_model_run x rhol rhog dP_lo dP_go dP_l dP_g :
  0 < x < 1 -> 0 < rhol -> 0 < rhog ->
  0 < dP_lo -> 0 < dP_go -> 0 < dP_l -> 0 < dP_g ->
  Theissing_model x rhol rhog dP_lo dP_go dP_l dP_g
  = if Req_dec_T (Theissing_n x dP_lo dP_go dP_l dP_g) 0
    then Raise ZeroDivisionError
    else if Req_dec_T
              (Theissing_n x dP_lo dP_go dP_l dP_g
               * Theissing_epsilon rhol rhog
                   (Theissing_n x dP_lo dP_go dP_l dP_g)) 0
    then Raise ZeroDivisionError
    else Val (Theissing_blend x dP_lo dP_go
                (Theissing_n x dP_lo dP_go dP_l dP_g)
                (Theissing_epsilon rhol rhog
                   (Theissing_n x dP_lo dP_go dP_l dP_g))).
Proof.
  intros Hx Hrl Hrg Hlo Hgo Hl Hg.
  assert (Hw : 0 < Rpower (dP_g / dP_l) 0.1) by pos.
  assert (Hr : 0 < rhol / rhog) by pos.
  assert (Hb : 0 < 2 * Rpower (rhol / rhog) 0.5 / (1 + rhol / rhog)).
  { assert (0 < Rpower (rhol / rhog) 0.5) by pos.
    apply Rdiv_lt_0_compat; lra. }
  remember (Theissing_n x dP_lo dP_go dP_l dP_g) as n eqn:En.
  remember (Theissing_epsilon rhol rhog n) as eps eqn:Ee.
  unfold Theissing_n in En. unfold Theissing_epsilon in Ee.
  unfold Theissing_model.
  rewrite (@fdiv_val dP_l dP_lo) by lra. next.
  rewrite (@flog_pos (dP_l / dP_lo)) by pos. next.
  rewrite (@flog_pos (1 - x)) by lra. next.
  rewrite (@fdiv_val (ln (dP_l / dP_lo))) by (apply ln_unit_nonzero; lra).
  next.
  rewrite (@fdiv_val dP_g dP_go) by lra. next.
  rewrite (@flog_pos (dP_g / dP_go)) by pos. next.
  rewrite (@flog_pos x) by lra. next.
  rewrite (@fdiv_val (ln (dP_g / dP_go))) by (apply ln_unit_nonzero; lra).
  next.
  rewrite !(@fdiv_val dP_g dP_l) by lra. next.
  rewrite (@fpow_pos (dP_g / dP_l)) by pos. next.
  rewrite (@fpow_pos (dP_g / dP_l)) by pos. next.
  rewrite (@fdiv_val _ (1 + Rpower (dP_g / dP_l) 0.1)) by lra. next.
  rewrite !(@fdiv_val rhol rhog) by lra. next.
  rewrite (@fpow_pos (rhol / rhog)) by pos. next.
  rewrite (@fdiv_val _ (1 + rhol / rhog)) by lra. next.
  rewrite <- En.
  destruct (Req_dec_T n 0) as [Hn0 | Hn].
  { rewrite Hn0 at 1. rewrite fdiv_zero. reflexivity. }
  rewrite (@fdiv_val 0.7 n) by assumption. next.
  rewrite fpow_pos by assumption. next.
  rewrite <- Ee.
  destruct (Req_dec_T (n * eps) 0) as [Hp0 | Hp].
  { rewrite Hp0 at 1. rewrite fdiv_zero. reflexivity. }
  assert (He : eps <> 0) by (intro E; apply Hp; rewrite E; ring).
  rewrite !(@fdiv_val 1 (n * eps)) by assumption. next.
  rewrite (@fpow_pos dP_lo) by assumption. next.
  rewrite !(@fdiv_val 1 eps) by assumption. next.
  rewrite (@fpow_pos (1 - x)) by lra. next.
  rewrite (@fpow_pos dP_go) by assumption. next.
  rewrite (@fpow_pos x) by lra. next.
  unfold Theissing_blend. apply fpow_pos.
  apply Rplus_lt_0_compat; apply Rmult_lt_0_compat; apply exp_pos.
Qed.
